(** * Connectivity provisioning core of the ESP32-S3 board firmware

    A shallow embedding of the parts of [main/board.c] and [main/main.c]
    that implement the credential store, the station retry policy, the
    captive-portal DNS responder, the [POST /api/set-wifi] handler and the
    first-connection bookkeeping of the WebSocket session, followed by the
    properties established about them.

    Conventions.  C [int]/[esp_err_t]/[EventBits_t] values are [Z]; bytes
    and [char]s are [Byte.byte]; a [char *] argument is an [option] (the
    null pointer is [None]) holding the bytes the pointer designates, of
    which only the part before the first NUL is the C string.  Calls into
    ESP-IDF, lwIP and FreeRTOS are modelled by what their documentation
    promises; every such model says so in its comment. *)

From Stdlib Require Import ZArith List Lia Bool.
From Stdlib Require Import Strings.Byte.
From stdpp Require Import gmap strings list.
Import ListNotations.
Open Scope Z_scope.

(* ================================================================== *)
(** * Part I: definitions                                              *)
(* ================================================================== *)

(** ** Error codes and event bits ([esp_err.h], [nvs.h], [board.h]) *)

Module Esp.

Abbreviation esp_err_t := Z (only parsing).

Definition ESP_OK : esp_err_t := 0.
Definition ESP_FAIL : esp_err_t := -1.
Definition ESP_ERR_INVALID_ARG : esp_err_t := 0x102.
Definition ESP_ERR_INVALID_STATE : esp_err_t := 0x103.
Definition ESP_ERR_TIMEOUT : esp_err_t := 0x107.
Definition ESP_ERR_NVS_NOT_FOUND : esp_err_t := 0x1102.
Definition ESP_ERR_NVS_READ_ONLY : esp_err_t := 0x1104.
Definition ESP_ERR_NVS_INVALID_LENGTH : esp_err_t := 0x110c.

(** [ret != ESP_OK] *)
Definition failed (ret : esp_err_t) : bool := negb (ret =? ESP_OK).

Abbreviation EventBits_t := Z (only parsing).

Definition BIT (n : Z) : EventBits_t := Z.shiftl 1 n.
Definition WIFI_CONNECTED_BIT : EventBits_t := BIT 0.
Definition WIFI_FAIL_BIT : EventBits_t := BIT 1.
Definition WIFI_CONFIG_SAVED_BIT : EventBits_t := BIT 2.
Definition FACTORY_RESET_BIT : EventBits_t := BIT 3.
Definition WEBSOCKET_CONNECTED_BIT : EventBits_t := BIT 4.
Definition WEBSOCKET_DISCONNECTED_BIT : EventBits_t := BIT 5.

Definition xEventGroupSetBits (group bits : EventBits_t) : EventBits_t :=
  Z.lor group bits.
Definition xEventGroupClearBits (group bits : EventBits_t) : EventBits_t :=
  Z.land group (Z.lnot bits).
(** [(value & bit) != 0] *)
Definition bit_set (value bit : EventBits_t) : bool :=
  negb (Z.land value bit =? 0).

End Esp.

(** ** C strings *)

Module CStr.

(** The string a [char *] designates: the bytes before the first NUL. *)
Fixpoint c_str (s : list byte) : list byte :=
  match s with
  | [] => []
  | c :: rest => if Byte.eqb c x00 then [] else c :: c_str rest
  end.

Definition strlen (s : list byte) : nat := length (c_str s).

Definition lit (s : string) : list byte := String.list_byte_of_string s.

End CStr.

(** ** Non-volatile storage ([nvs.h])

    The flash partition is a map from namespace to a map from key to
    string value.  [faults] is the environment: every fallible NVS call
    takes the next entry; an entry other than [ESP_OK] makes that call
    return it without doing anything.  An empty list is a healthy flash. *)

Module Nvs.
Import Esp.

Inductive nvs_open_mode_t := NVS_READONLY | NVS_READWRITE.

Record flash := {
  pages : gmap string (gmap string (list byte));
  faults : list Z
}.

Record nvs_handle_t := {
  h_namespace : string;
  h_mode : nvs_open_mode_t
}.

Definition draw (fl : flash) : Z * flash :=
  match faults fl with
  | [] => (ESP_OK, fl)
  | e :: rest => (e, {| pages := pages fl; faults := rest |})
  end.

(** [nvs_open]: a read-only open of a namespace that does not exist is
    [ESP_ERR_NVS_NOT_FOUND]; a read-write open creates it. *)
Definition nvs_open (name : string) (mode : nvs_open_mode_t) (fl : flash)
  : Z * option nvs_handle_t * flash :=
  let '(e, fl) := draw fl in
  if failed e then (e, None, fl) else
  let h := {| h_namespace := name; h_mode := mode |} in
  match pages fl !! name, mode with
  | Some _, _ => (ESP_OK, Some h, fl)
  | None, NVS_READONLY => (ESP_ERR_NVS_NOT_FOUND, None, fl)
  | None, NVS_READWRITE =>
      (ESP_OK, Some h,
       {| pages := <[name := ∅]> (pages fl); faults := faults fl |})
  end.

Definition entry (h : nvs_handle_t) (key : string) (fl : flash)
  : option (list byte) :=
  match pages fl !! h_namespace h with
  | Some ns => ns !! key
  | None => None
  end.

(** [nvs_get_str(handle, key, out_value, &length)].  [out_value] says
    whether the buffer pointer is non-null and [length] is the value of
    [*length] on entry.  As documented in [nvs.h], the length reported
    for a string includes its zero terminator: with a null [out_value]
    the call stores the required size, otherwise it copies the string if
    [*length] is large enough.  Result: return code, [*length] on exit
    and the string copied out, if any. *)
Definition nvs_get_str (h : nvs_handle_t) (key : string)
    (out_value : bool) (length_in : nat) (fl : flash)
  : Z * nat * option (list byte) * flash :=
  let '(e, fl) := draw fl in
  if failed e then (e, length_in, None, fl) else
  match entry h key fl with
  | None => (ESP_ERR_NVS_NOT_FOUND, length_in, None, fl)
  | Some v =>
      let required := S (length v) in
      if negb out_value then (ESP_OK, required, None, fl)
      else if (length_in <? required)%nat
           then (ESP_ERR_NVS_INVALID_LENGTH, required, None, fl)
           else (ESP_OK, required, Some v, fl)
  end.

(** [nvs_set_str(handle, key, value)] stores the C string [value]. *)
Definition nvs_set_str (h : nvs_handle_t) (key : string)
    (value : list byte) (fl : flash) : Z * flash :=
  let '(e, fl) := draw fl in
  if failed e then (e, fl) else
  match h_mode h with
  | NVS_READONLY => (ESP_ERR_NVS_READ_ONLY, fl)
  | NVS_READWRITE =>
      let ns := default ∅ (pages fl !! h_namespace h) in
      (ESP_OK,
       {| pages := <[h_namespace h := <[key := CStr.c_str value]> ns]> (pages fl);
          faults := faults fl |})
  end.

Definition nvs_commit (h : nvs_handle_t) (fl : flash) : Z * flash :=
  draw fl.

Definition healthy (fl : flash) : Prop := faults fl = [].

End Nvs.

(** ** Credential store ([board_wifi_has_valid_config],
       [board_wifi_save_config]) *)

Module Creds.
Import Esp Nvs.

Definition BOARD_WIFI_NVS_NAMESPACE : string := "wifi_config".
Definition BOARD_WIFI_SSID_KEY : string := "ssid".
Definition BOARD_WIFI_PASSWORD_KEY : string := "password".

(** What the store and the event bus look like to these two functions. *)
Record board := {
  nvs : flash;
  board_event_group : Z
}.

(** Outcome of [board_wifi_has_valid_config(ssid, password)]: the
    boolean returned and what was written to each caller buffer
    ([None]: buffer left untouched). *)
Record config_query := {
  found : bool;
  ssid_out : option (list byte);
  password_out : option (list byte)
}.

Definition no_config : config_query :=
  {| found := false; ssid_out := None; password_out := None |}.

(** [want_ssid] and [want_password] say whether the corresponding
    pointer argument is non-null. *)
Definition board_wifi_has_valid_config (want_ssid want_password : bool)
    (fl : flash) : config_query * flash :=
  let '(ret, oh, fl) := nvs_open BOARD_WIFI_NVS_NAMESPACE NVS_READONLY fl in
  match oh with
  | None => (no_config, fl)
  | Some nvs_handle =>
    if failed ret then (no_config, fl) else
    (* size_t ssid_len = 0; nvs_get_str(h, "ssid", NULL, &ssid_len) *)
    let '(ret, ssid_len, _, fl) :=
      nvs_get_str nvs_handle BOARD_WIFI_SSID_KEY false 0%nat fl in
    if failed ret || (ssid_len =? 0)%nat || (32 <? ssid_len)%nat
    then (no_config, fl) else
    let '(ret, pass_len, _, fl) :=
      nvs_get_str nvs_handle BOARD_WIFI_PASSWORD_KEY false 0%nat fl in
    if failed ret || (64 <? pass_len)%nat
    then (no_config, fl) else
    let '(ret_s, _, s_out, fl) :=
      if want_ssid
      then nvs_get_str nvs_handle BOARD_WIFI_SSID_KEY true ssid_len fl
      else (ESP_OK, ssid_len, None, fl) in
    if failed ret_s then (no_config, fl) else
    let '(ret_p, _, p_out, fl) :=
      if want_password
      then nvs_get_str nvs_handle BOARD_WIFI_PASSWORD_KEY true pass_len fl
      else (ESP_OK, pass_len, None, fl) in
    if failed ret_p
    then ({| found := false; ssid_out := s_out; password_out := None |}, fl)
    else ({| found := true; ssid_out := s_out; password_out := p_out |}, fl)
  end.

Definition with_nvs (st : board) (fl : flash) : board :=
  {| nvs := fl; board_event_group := board_event_group st |}.

Definition board_wifi_save_config (ssid password : option (list byte))
    (st : board) : Z * board :=
  match ssid with
  | None => (ESP_ERR_INVALID_ARG, st)
  | Some ssid =>
    if (CStr.strlen ssid =? 0)%nat || (32 <? CStr.strlen ssid)%nat
    then (ESP_ERR_INVALID_ARG, st) else
    match password with
    | None => (ESP_ERR_INVALID_ARG, st)
    | Some password =>
      if (64 <? CStr.strlen password)%nat
      then (ESP_ERR_INVALID_ARG, st) else
      let '(ret, oh, fl) :=
        nvs_open BOARD_WIFI_NVS_NAMESPACE NVS_READWRITE (nvs st) in
      match oh with
      | None => (ret, with_nvs st fl)
      | Some nvs_handle =>
        if failed ret then (ret, with_nvs st fl) else
        let '(ret, fl) := nvs_set_str nvs_handle BOARD_WIFI_SSID_KEY ssid fl in
        if failed ret then (ret, with_nvs st fl) else
        let '(ret, fl) :=
          nvs_set_str nvs_handle BOARD_WIFI_PASSWORD_KEY password fl in
        if failed ret then (ret, with_nvs st fl) else
        let '(ret, fl) := nvs_commit nvs_handle fl in
        if failed ret then (ret, with_nvs st fl) else
        (ESP_OK,
         {| nvs := fl;
            board_event_group :=
              xEventGroupSetBits (board_event_group st) WIFI_CONFIG_SAVED_BIT |})
      end
    end
  end.

(** [save] followed by [has_valid_config(ssid, password)]. *)
Definition save_then_query (ssid password : list byte) (st : board)
  : Z * config_query :=
  let '(ret, st) := board_wifi_save_config (Some ssid) (Some password) st in
  (ret, fst (board_wifi_has_valid_config true true (nvs st))).

Definition fresh_board : board :=
  {| nvs := {| pages := ∅; faults := [] |}; board_event_group := 0 |}.

End Creds.

(** ** Station connection manager ([wifi_sta_event_handler],
       [board_wifi_sta_wait_connected]) *)

Module Sta.
Import Esp.

Definition BOARD_WIFI_MAX_RETRY : Z := 5.

(** The events the handler is registered for. *)
Inductive sta_event :=
| WIFI_EVENT_STA_START
| WIFI_EVENT_STA_CONNECTED
| WIFI_EVENT_STA_DISCONNECTED (reason : Z)
| IP_EVENT_STA_GOT_IP
| IP_EVENT_STA_LOST_IP.

(** Calls the handler makes that are visible outside it.  The delay is
    recorded in milliseconds, the argument of [pdMS_TO_TICKS]. *)
Inductive action :=
| EspWifiConnect
| VTaskDelayMs (ms : Z).

Record sta := {
  s_wifi_retry_num : Z;
  s_wifi_event_group : option Z;   (* [None]: the handle is still NULL *)
  board_event_group : Z;
  actions : list action            (* oldest first *)
}.

(** 32-bit [int] arithmetic. *)
Definition wrap32 (z : Z) : Z := (z + 2 ^ 31) mod 2 ^ 32 - 2 ^ 31.

(** [500 * (1 << s_wifi_retry_num)] *)
Definition backoff_ms (retry_num : Z) : Z :=
  wrap32 (500 * wrap32 (Z.shiftl 1 retry_num)).

Definition wifi_sta_event_handler (ev : sta_event) (st : sta) : sta :=
  match ev with
  | WIFI_EVENT_STA_START =>
      {| s_wifi_retry_num := 0;
         s_wifi_event_group := s_wifi_event_group st;
         board_event_group := board_event_group st;
         actions := actions st ++ [EspWifiConnect] |}
  | WIFI_EVENT_STA_CONNECTED => st
  | WIFI_EVENT_STA_DISCONNECTED _ =>
      if s_wifi_retry_num st <? BOARD_WIFI_MAX_RETRY then
        {| s_wifi_retry_num := wrap32 (s_wifi_retry_num st + 1);
           s_wifi_event_group := s_wifi_event_group st;
           board_event_group := board_event_group st;
           actions := actions st ++
                      [VTaskDelayMs (backoff_ms (s_wifi_retry_num st));
                       EspWifiConnect] |}
      else
        {| s_wifi_retry_num := s_wifi_retry_num st;
           s_wifi_event_group :=
             (fun g => xEventGroupSetBits g WIFI_FAIL_BIT)
               <$> s_wifi_event_group st;
           board_event_group :=
             xEventGroupSetBits (board_event_group st) WIFI_FAIL_BIT;
           actions := actions st |}
  | IP_EVENT_STA_GOT_IP =>
      {| s_wifi_retry_num := 0;
         s_wifi_event_group :=
           (fun g => xEventGroupSetBits g WIFI_CONNECTED_BIT)
             <$> s_wifi_event_group st;
         board_event_group :=
           xEventGroupSetBits (board_event_group st) WIFI_CONNECTED_BIT;
         actions := actions st |}
  | IP_EVENT_STA_LOST_IP => st
  end.

Definition deliver (evs : list sta_event) (st : sta) : sta :=
  fold_left (fun s ev => wifi_sta_event_handler ev s) evs st.

(** [board_wifi_sta_wait_connected] called when no further event arrives
    during the wait: [xEventGroupWaitBits] (no clear on exit, wait for
    any bit) then returns the current value of the group, at once when
    one of the two bits is set and at the timeout otherwise. *)
Definition board_wifi_sta_wait_connected (st : sta) : Z :=
  match s_wifi_event_group st with
  | None => ESP_ERR_INVALID_STATE
  | Some result =>
      if bit_set result WIFI_CONNECTED_BIT then ESP_OK
      else if bit_set result WIFI_FAIL_BIT then ESP_FAIL
      else ESP_ERR_TIMEOUT
  end.


(** The station right after [board_wifi_sta_init] created the event
    group, before [esp_wifi_start] posts [WIFI_EVENT_STA_START]. *)
Definition after_init : sta :=
  {| s_wifi_retry_num := 0; s_wifi_event_group := Some 0;
     board_event_group := 0; actions := [] |}.

End Sta.

(** ** Captive-portal DNS responder ([dns_server_task]) *)

Module Dns.

(** What one [recvfrom] on the UDP socket produces: an error (the call
    returns -1) or a datagram. *)
Inductive recv_result :=
| RecvError
| RecvDatagram (payload : list byte).

(** [memset(rx_buffer, 0, 128); len = recvfrom(sock, rx_buffer, 128, ...)]:
    the returned length and the buffer afterwards.  A datagram longer
    than the buffer is cut to its first 128 bytes. *)
Definition recvfrom (r : recv_result) : Z * list byte :=
  match r with
  | RecvError => (-1, repeat x00 128)
  | RecvDatagram p =>
      let got := take 128 p in
      (Z.of_nat (length got), got ++ repeat x00 (128 - length got))
  end.

(** [rx_buffer[i]] as an [int]. *)
Definition rx_at (rx : list byte) (i : Z) : Z :=
  Z.of_N (Byte.to_N (nth (Z.to_nat i) rx x00)).

(** [while (question_end < len && rx_buffer[question_end] != 0)
       question_end += rx_buffer[question_end] + 1;]
    Every round advances [question_end], so 128 rounds always suffice. *)
Fixpoint skip_labels (fuel : nat) (rx : list byte) (len question_end : Z) : Z :=
  match fuel with
  | O => question_end
  | S fuel =>
      if (question_end <? len) && negb (rx_at rx question_end =? 0)
      then skip_labels fuel rx len (question_end + (rx_at rx question_end + 1))
      else question_end
  end.

Definition question_end (rx : list byte) (len : Z) : Z :=
  skip_labels 128 rx len 12 + 5.

(** The initialiser of [dns_reply[128]]. *)
Definition dns_reply_init : list byte :=
  [x00; x00; x81; x80; x00; x01; x00; x01; x00; x00; x00; x00]
  ++ repeat x00 116.

(** [ip_info.ip.addr] as it lies in memory (network byte order). *)
Record esp_ip4_addr_t := {
  ip0 : byte; ip1 : byte; ip2 : byte; ip3 : byte
}.
Definition ip_bytes (ip : esp_ip4_addr_t) : list byte :=
  [ip0 ip; ip1 ip; ip2 ip; ip3 ip].

Definition answer_record (ip : esp_ip4_addr_t) : list byte :=
  [xc0; x0c;               (* pointer to the name at offset 12 *)
   x00; x01;               (* type A *)
   x00; x01;               (* class IN *)
   x00; x00; x00; x0a;     (* TTL 10 s *)
   x00; x04]               (* data length *)
  ++ ip_bytes ip.

Inductive syscall :=
| Recvfrom (len : Z)
| Sendto (packet : list byte)
| VTaskDelay (ms : Z).

(** How a pass through the body of [while (1)] ends. *)
Inductive control := LoopAgain | LoopExit.

(** [memcpy(response + 12, rx_buffer + 12, question_end - 12)] *)
Definition question_bytes (rx : list byte) (qend : Z) : list byte :=
  take (Z.to_nat (qend - 12)) (drop 12 rx).

(** One pass through the loop body.  [dns_reply] is the array declared
    before the loop, whose first two bytes each pass overwrites.  The
    extraction of the dotted name into [domain], which only feeds a debug
    log line, is left out. *)
Definition dns_iteration (ip : esp_ip4_addr_t) (dns_reply : list byte)
    (r : recv_result) : list syscall * list byte * control :=
  let '(len, rx_buffer) := recvfrom r in
  if len <? 12 then
    ([Recvfrom len; VTaskDelay 1], dns_reply, LoopAgain)       (* continue *)
  else
    let dns_reply :=
      <[1%nat := nth 1 rx_buffer x00]> (<[0%nat := nth 0 rx_buffer x00]> dns_reply) in
    let qend := question_end rx_buffer len in
    if (qend <=? len) && (qend <=? 64) then
      let response :=
        take 12 dns_reply ++ question_bytes rx_buffer qend ++ answer_record ip in
      ([Recvfrom len; Sendto response; VTaskDelay 1], dns_reply, LoopAgain)
    else
      ([Recvfrom len; VTaskDelay 1], dns_reply, LoopAgain).

(** Where the task is once the environment has nothing more to deliver. *)
Inductive task_state :=
| BlockedInRecvfrom    (* inside the loop, a further recvfrom is pending *)
| TaskDeleted.         (* left the loop; vTaskDelete(NULL) was reached *)

(** The receive loop run against the successive results of [recvfrom]. *)
Fixpoint dns_server_loop (ip : esp_ip4_addr_t) (dns_reply : list byte)
    (inputs : list recv_result) : list syscall * task_state :=
  match inputs with
  | [] => ([], BlockedInRecvfrom)
  | r :: rest =>
      let '(calls, dns_reply, ctl) := dns_iteration ip dns_reply r in
      match ctl with
      | LoopExit => (calls, TaskDeleted)
      | LoopAgain =>
          let '(more, final) := dns_server_loop ip dns_reply rest in
          (calls ++ more, final)
      end
  end.

(** [dns_server_task]: the task ends early when the socket cannot be
    created or bound, and otherwise enters the loop. *)
Definition dns_server_task (socket_ok bind_ok : bool) (ip : esp_ip4_addr_t)
    (inputs : list recv_result) : list syscall * task_state :=
  if negb socket_ok then ([], TaskDeleted)
  else if negb bind_ok then ([], TaskDeleted)
  else dns_server_loop ip dns_reply_init inputs.

Definition replies (calls : list syscall) : list (list byte) :=
  omap (fun c => match c with Sendto p => Some p | _ => None end) calls.

Definition receive_calls (calls : list syscall) : nat :=
  length (List.filter (fun c => match c with Recvfrom _ => true | _ => false end) calls).

(** The packet sent in answer to one datagram, if any. *)
Definition dns_respond (ip : esp_ip4_addr_t) (r : recv_result)
  : option (list byte) :=
  head (replies (fst (fst (dns_iteration ip dns_reply_init r)))).

(** *** RFC 1035 queries, to say what well formed means

    A query is a 12-byte header followed by one question: the name as
    length-prefixed labels closed by a zero byte, then two bytes of type
    and two of class.  Anything after the question (for instance an EDNS
    record) is [trailer]. *)
Record dns_query := {
  q_id : byte * byte;
  q_rest_of_header : list byte;     (* flags and the four counts *)
  q_labels : list (list byte);
  q_type : byte * byte;
  q_class : byte * byte;
  q_trailer : list byte
}.

Definition encode_label (l : list byte) : list byte :=
  default x00 (Byte.of_N (N.of_nat (length l))) :: l.

Definition encode_name (labels : list (list byte)) : list byte :=
  concat (map encode_label labels) ++ [x00].

Definition encode_question (q : dns_query) : list byte :=
  encode_name (q_labels q)
  ++ [fst (q_type q); snd (q_type q); fst (q_class q); snd (q_class q)].

Definition encode_query (q : dns_query) : list byte :=
  [fst (q_id q); snd (q_id q)] ++ q_rest_of_header q
  ++ encode_question q ++ q_trailer q.

(** Labels are 1 to 63 bytes long and the header has its 12 bytes. *)
Definition well_formed (q : dns_query) : Prop :=
  length (q_rest_of_header q) = 10%nat ∧
  Forall (fun l => (1 <= length l <= 63)%nat) (q_labels q).

End Dns.

(** ** Provisioning endpoint ([http_server_set_wifi_config_handler]) *)

Module Http.
Import Esp.

(** What the connection does when the handler reads from it: time out,
    fail, or hand over at most [available] bytes of the body. *)
Inductive sock_read :=
| SockTimeout
| SockFail
| SockDeliver (available : nat).

Record httpd_req_t := {
  body : list byte;
  sock : sock_read
}.

Definition HTTPD_SOCK_ERR_FAIL : Z := -1.
Definition HTTPD_SOCK_ERR_TIMEOUT : Z := -3.

(** [httpd_req_recv(req, buf, buf_len)]: the return value and the bytes
    put in [buf].  One call returns no more than [buf_len] bytes and no
    more than the connection has ready. *)
Definition httpd_req_recv (req : httpd_req_t) (buf_len : nat)
  : Z * list byte :=
  match sock req with
  | SockTimeout => (HTTPD_SOCK_ERR_TIMEOUT, [])
  | SockFail => (HTTPD_SOCK_ERR_FAIL, [])
  | SockDeliver available =>
      let got := take (Nat.min buf_len available) (body req) in
      (Z.of_nat (length got), got)
  end.

Fixpoint starts_with (needle hay : list byte) : bool :=
  match needle, hay with
  | [], _ => true
  | _ :: _, [] => false
  | n :: needle, h :: hay => Byte.eqb n h && starts_with needle hay
  end.

(** [strstr(hay, needle)]: the string from the first occurrence on. *)
Fixpoint strstr (hay needle : list byte) : option (list byte) :=
  match hay with
  | [] => if starts_with needle [] then Some [] else None
  | _ :: rest =>
      if starts_with needle hay then Some hay else strstr rest needle
  end.

(** [strchr(s, c) - s]: the offset of the first [c] in [s]. *)
Fixpoint strchr (s : list byte) (c : byte) : option nat :=
  match s with
  | [] => None
  | h :: rest => if Byte.eqb h c then Some O else S <$> strchr rest c
  end.

(** [for (i = 0; i < strlen(s); i++) if (s[i] == '+') s[i] = ' ';] *)
Definition plus_to_space (s : list byte) : list byte :=
  map (fun c => if Byte.eqb c x2b then x20 else c) s.

(** The [ssid] field: [None] when the copy runs past [char ssid[33]].
    With an ampersand after the value, [strncpy] copies the [n] bytes
    before it and [ssid[n]] is set to NUL, which stays inside the array
    only for [n <= 32]; without one, at most 32 bytes are copied. *)
Definition parse_ssid (buf : list byte) : option (list byte) :=
  match strstr buf (CStr.lit "ssid=") with
  | None => Some []
  | Some found =>
      let ssid_start := drop 5 found in
      match strchr ssid_start x26 with
      | Some n => if (32 <? n)%nat then None else Some (take n ssid_start)
      | None => Some (take 32 ssid_start)
      end
  end.

(** The [password] field: up to 64 bytes after the first [password=]. *)
Definition parse_password (buf : list byte) : list byte :=
  match strstr buf (CStr.lit "password=") with
  | None => []
  | Some found => take 64 (drop 9 found)
  end.

(** The two JSON documents the handler answers with: status ok, or
    status error with the name of the code [save] returned. *)
Inductive json_reply :=
| StatusOk
| StatusError (save_ret : Z).

Inductive resp_call :=
| HttpdRespSend408
| HttpdRespSetType (mime : string)
| HttpdRespSetHdr (field value : string)
| HttpdRespSendstr (doc : json_reply).

Inductive outcome :=
| Returned (ret : Z) (resp : list resp_call) (st : Creds.board)
| StackOverrun.   (* a write past the end of [ssid]: undefined behaviour *)

Definition http_server_set_wifi_config_handler (req : httpd_req_t)
    (st : Creds.board) : outcome :=
  let '(ret, data) := httpd_req_recv req 127 in
  if ret <=? 0 then
    Returned ESP_FAIL
      (if ret =? HTTPD_SOCK_ERR_TIMEOUT then [HttpdRespSend408] else []) st
  else
    (* buf[ret] = 0 *)
    let buf := CStr.c_str data in
    match parse_ssid buf with
    | None => StackOverrun
    | Some ssid =>
        let password := parse_password buf in
        let ssid := plus_to_space ssid in
        let password := plus_to_space password in
        let '(save_ret, st) :=
          Creds.board_wifi_save_config (Some ssid) (Some password) st in
        Returned ESP_OK
          [HttpdRespSetType "application/json";
           HttpdRespSetHdr "Access-Control-Allow-Origin" "*";
           HttpdRespSendstr
             (if save_ret =? ESP_OK then StatusOk else StatusError save_ret)]
          st
    end.

End Http.

(** ** Session manager ([websocket_event_handler],
       [reset_connection_timer_cb]) *)

Module Session.
Import Esp.

Inductive system_state_t :=
| SYSTEM_STATE_INIT
| SYSTEM_STATE_WIFI_CONFIG
| SYSTEM_STATE_WIFI_CONNECTING
| SYSTEM_STATE_WIFI_CONNECTED
| SYSTEM_STATE_WS_CONNECTED
| SYSTEM_STATE_RECORDING
| SYSTEM_STATE_PLAYING
| SYSTEM_STATE_ERROR.

(** The two events that touch the first-connection flag. *)
Inductive ws_event :=
| WEBSOCKET_EVENT_CONNECTED
| WEBSOCKET_EVENT_DISCONNECTED.

Inductive effect :=
| PlayPcmById (pcm_id : Z)
| SendDeviceConnected.

(** A FreeRTOS one-shot software timer: dormant, or active until the
    tick at which it expires. *)
Inductive timer :=
| Dormant
| ActiveUntil (expiry : Z).

Record session := {
  first_connection : bool;
  reset_timer : option timer;      (* [None]: not yet created *)
  board_event_group : Z;
  s_system_state : system_state_t;
  effects : list effect            (* oldest first *)
}.

(** [pdMS_TO_TICKS(30000)], with one tick per millisecond. *)
Definition RESET_PERIOD : Z := 30000.

Definition reset_connection_timer_cb (s : session) : session :=
  {| first_connection := true;
     reset_timer := reset_timer s;
     board_event_group := board_event_group s;
     s_system_state := s_system_state s;
     effects := effects s |}.

(** The handler run at tick [now].  [xTimerCreate] is taken to succeed;
    [xTimerStart] and [xTimerReset] both make the timer expire one
    period after [now]. *)
Definition websocket_event_handler (ev : ws_event) (now : Z) (s : session)
  : session :=
  match ev with
  | WEBSOCKET_EVENT_CONNECTED =>
      {| first_connection := false;
         reset_timer := reset_timer s;
         board_event_group :=
           xEventGroupSetBits (board_event_group s) WEBSOCKET_CONNECTED_BIT;
         s_system_state := SYSTEM_STATE_WS_CONNECTED;
         effects :=
           effects s
           ++ (if first_connection s then [PlayPcmById 4] else [])
           ++ [SendDeviceConnected] |}
  | WEBSOCKET_EVENT_DISCONNECTED =>
      {| first_connection := first_connection s;
         reset_timer := Some (ActiveUntil (now + RESET_PERIOD));
         board_event_group :=
           xEventGroupSetBits
             (xEventGroupClearBits (board_event_group s) WEBSOCKET_CONNECTED_BIT)
             WEBSOCKET_DISCONNECTED_BIT;
         s_system_state := SYSTEM_STATE_WIFI_CONNECTED;
         effects := effects s |}
  end.

(** The timer service task at tick [now]: an active timer whose expiry
    has been reached runs its callback once and becomes dormant. *)
Definition timer_service (now : Z) (s : session) : session :=
  match reset_timer s with
  | Some (ActiveUntil expiry) =>
      if expiry <=? now then
        reset_connection_timer_cb
          {| first_connection := first_connection s;
             reset_timer := Some Dormant;
             board_event_group := board_event_group s;
             s_system_state := s_system_state s;
             effects := effects s |}
      else s
  | _ => s
  end.

(** A session event stamped with the tick at which it is delivered. *)
Definition deliver (s : session) (tev : Z * ws_event) : session :=
  websocket_event_handler (snd tev) (fst tev) (timer_service (fst tev) s).

Definition run (evs : list (Z * ws_event)) (s : session) : session :=
  fold_left deliver evs s.

Definition boot : session :=
  {| first_connection := true; reset_timer := None;
     board_event_group := 0; s_system_state := SYSTEM_STATE_WIFI_CONNECTED;
     effects := [] |}.

(** How many times the connection sound (PCM 4) was played. *)
Definition announcements (s : session) : nat :=
  length (List.filter
            (fun e => match e with PlayPcmById 4 => true | _ => false end)
            (effects s)).

End Session.

(** ** Factory reset ([board_factory_reset_task]) *)

Module Reset.
Import Esp Nvs Creds.

(** [nvs_erase_key(handle, key)]: removes the key from the namespace of the
    handle, [ESP_ERR_NVS_NOT_FOUND] when it is not there. *)
Definition nvs_erase_key (h : nvs_handle_t) (key : string) (fl : flash)
  : Z * flash :=
  let '(e, fl) := draw fl in
  if failed e then (e, fl) else
  match h_mode h with
  | NVS_READONLY => (ESP_ERR_NVS_READ_ONLY, fl)
  | NVS_READWRITE =>
      match pages fl !! h_namespace h with
      | None => (ESP_ERR_NVS_NOT_FOUND, fl)
      | Some ns =>
          match ns !! key with
          | None => (ESP_ERR_NVS_NOT_FOUND, fl)
          | Some _ =>
              (ESP_OK,
               {| pages := <[h_namespace h := delete key ns]> (pages fl);
                  faults := faults fl |})
          end
      end
  end.

(** The board as the task leaves it when it calls [esp_restart].  The
    return codes of the two erasures and of the commit are not looked at. *)
Definition board_factory_reset_task (st : board) : board :=
  let '(ret, oh, fl) := nvs_open BOARD_WIFI_NVS_NAMESPACE NVS_READWRITE (nvs st) in
  let fl :=
    match oh with
    | Some nvs_handle =>
        if ret =? ESP_OK then
          let '(_, fl) := nvs_erase_key nvs_handle BOARD_WIFI_SSID_KEY fl in
          let '(_, fl) := nvs_erase_key nvs_handle BOARD_WIFI_PASSWORD_KEY fl in
          let '(_, fl) := nvs_commit nvs_handle fl in
          fl
        else fl
    | None => fl
    end in
  {| nvs := fl;
     board_event_group := xEventGroupClearBits (board_event_group st) 0xFF |}.

(** The value stored under [key] in namespace [name], if any. *)
Definition stored (name key : string) (fl : flash) : option (list byte) :=
  entry {| h_namespace := name; h_mode := NVS_READONLY |} key fl.

End Reset.

(** ** Factory reset button ([factory_reset_btn_intr_handler],
       [factory_reset_btn_task], [factory_reset_btn_timer_cb]) *)

Module Button.
Import Session.

Inductive factory_reset_btn_event_t :=
| FACTORY_RESET_BTN_PRESS
| FACTORY_RESET_BTN_RELEASE.

(** The interrupt handler turns the pin level it reads into an event. *)
Definition factory_reset_btn_intr_handler (level : Z) : factory_reset_btn_event_t :=
  if level =? 0 then FACTORY_RESET_BTN_PRESS else FACTORY_RESET_BTN_RELEASE.

Record button := {
  btn_timer : option timer;     (* [None]: not yet created *)
  reset_tasks : nat             (* [board_factory_reset_task] tasks created *)
}.

(** One event taken from the queue at tick [now].  [period] is
    [pdMS_TO_TICKS(BOARD_FACTORY_RESET_LONG_PRESS_TIME_MS)], a build
    setting. *)
Definition factory_reset_btn_task (period : Z)
    (event : factory_reset_btn_event_t) (now : Z) (b : button) : button :=
  match event with
  | FACTORY_RESET_BTN_PRESS =>
      match default Dormant (btn_timer b) with
      | Dormant =>
          {| btn_timer := Some (ActiveUntil (now + period));
             reset_tasks := reset_tasks b |}
      | ActiveUntil expiry =>
          {| btn_timer := Some (ActiveUntil expiry);
             reset_tasks := reset_tasks b |}
      end
  | FACTORY_RESET_BTN_RELEASE =>
      match btn_timer b with
      | Some (ActiveUntil _) =>
          {| btn_timer := Some Dormant; reset_tasks := reset_tasks b |}
      | _ => b
      end
  end.

(** The timer service at tick [now]: an expired timer runs
    [factory_reset_btn_timer_cb], which creates the reset task. *)
Definition btn_timer_service (now : Z) (b : button) : button :=
  match btn_timer b with
  | Some (ActiveUntil expiry) =>
      if expiry <=? now
      then {| btn_timer := Some Dormant; reset_tasks := S (reset_tasks b) |}
      else b
  | _ => b
  end.

(** An edge on the pin: the tick and the level read by the handler. *)
Definition edge (period : Z) (b : button) (e : Z * Z) : button :=
  factory_reset_btn_task period (factory_reset_btn_intr_handler (snd e))
    (fst e) (btn_timer_service (fst e) b).

Definition edges (period : Z) (es : list (Z * Z)) (b : button) : button :=
  fold_left (edge period) es b.

Definition timer_idle (b : button) : Prop :=
  btn_timer b = None ∨ btn_timer b = Some Dormant.

End Button.

(** ** Inbound commands (the [WEBSOCKET_EVENT_DATA] branch of
       [websocket_event_handler], [play_pcm_by_id]) *)

Module Cmd.
Import Esp.

(** A parsed cJSON item: its type, [valueint] for a number and
    [valuestring] for a string. *)
#[warnings="-register-all"]
Inductive cJSON :=
| cJSON_NULL
| cJSON_False
| cJSON_True
| cJSON_Number (valueint : Z)
| cJSON_String (valuestring : list byte)
| cJSON_Array (items : list cJSON)
| cJSON_Object (members : list (list byte * cJSON)).

(** [tolower] on the C locale. *)
Definition tolower (c : byte) : byte :=
  let n := Byte.to_N c in
  if ((65 <=? n) && (n <=? 90))%N then default c (Byte.of_N (n + 32)) else c.

Fixpoint bytes_eqb (a b : list byte) : bool :=
  match a, b with
  | [], [] => true
  | x :: a, y :: b => Byte.eqb x y && bytes_eqb a b
  | _, _ => false
  end.

(** [strcmp(a, b) == 0] *)
Definition strcmp_eq (a b : list byte) : bool :=
  bytes_eqb (CStr.c_str a) (CStr.c_str b).

Fixpoint find_member (members : list (list byte * cJSON)) (name : list byte)
  : option cJSON :=
  match members with
  | [] => None
  | (key, item) :: rest =>
      if bytes_eqb (map tolower name) (map tolower key)
      then Some item else find_member rest name
  end.

(** [cJSON_GetObjectItem(object, name)]: the first member whose name
    equals [name] without regard to case; NULL for a null [object] and for
    an item that has no named members. *)
Definition cJSON_GetObjectItem (object : option cJSON) (name : list byte)
  : option cJSON :=
  match object with
  | Some (cJSON_Object members) => find_member members name
  | _ => None
  end.

Record player := {
  s_tx_handle : bool;                         (* the handle is non-null *)
  s_system_state : Session.system_state_t
}.

(** What the audio driver answers: [board_audio_playback_init] returns a
    code and may have stored a channel handle even when it fails;
    [board_audio_play] returns a code. *)
Record audio_hw := {
  playback_init : Z * bool;
  audio_play : Z
}.

Inductive audio_call :=
| BoardAudioPlaybackInit
| BoardAudioPlay (pcm_id : Z)
| VTaskDelayMs (ms : Z).

Definition play_pcm_by_id (pcm_id : Z) (hw : audio_hw) (st : player)
  : Z * player * list audio_call :=
  if negb ((1 <=? pcm_id) && (pcm_id <=? 4)) then (ESP_ERR_INVALID_ARG, st, [])
  else
    let '(ret, handle, calls) :=
      if s_tx_handle st then (ESP_OK, true, [])
      else (fst (playback_init hw),
            (fst (playback_init hw) =? ESP_OK) || snd (playback_init hw),
            [BoardAudioPlaybackInit]) in
    if failed ret then
      (ret, {| s_tx_handle := handle; s_system_state := s_system_state st |}, calls)
    else
      (audio_play hw,
       {| s_tx_handle := handle;
          s_system_state := Session.SYSTEM_STATE_INIT |},
       calls ++ [BoardAudioPlay pcm_id]
       ++ (if failed (audio_play hw) then [] else [VTaskDelayMs 1000])).

(** The messages the branch sends back. *)
Inductive outbound :=
| RecordingStarted (duration : Z)
| RestartAck
| PlayPcmResult (pcm_id : Z) (ok : bool).

Inductive ws_call :=
| StartAudioRecording (seconds : Z)
| PlayPcmById (pcm_id : Z)
| SendText (msg : outbound)
| VTaskDelay3000
| EspRestart.

(** The handler on a data frame of [data_len] bytes for which
    [cJSON_Parse] returned [root].  [play] stands for [play_pcm_by_id]: the
    code it returns for an id. *)
Definition websocket_event_data (data_len : Z) (root : option cJSON)
    (play : Z → Z) : list ws_call :=
  if negb (0 <? data_len) then [] else
  match root with
  | None => []
  | Some _ =>
    let event := cJSON_GetObjectItem root (CStr.lit "event") in
    let data_obj := cJSON_GetObjectItem root (CStr.lit "data") in
    match event with
    | Some (cJSON_String valuestring) =>
      if strcmp_eq valuestring (CStr.lit "start_recording") then
        let duration :=
          match data_obj with
          | Some (cJSON_Object _) =>
              match cJSON_GetObjectItem data_obj (CStr.lit "duration") with
              | Some (cJSON_Number valueint) =>
                  let duration := valueint in
                  let duration := if duration <? 1 then 1 else duration in
                  if 60 <? duration then 60 else duration
              | _ => 5
              end
          | _ => 5
          end in
        [StartAudioRecording duration; SendText (RecordingStarted duration)]
      else if strcmp_eq valuestring (CStr.lit "restart") then
        [SendText RestartAck; VTaskDelay3000; EspRestart]
      else if strcmp_eq valuestring (CStr.lit "play_pcm") then
        let pcm_id :=
          match data_obj with
          | Some (cJSON_Object _) =>
              match cJSON_GetObjectItem data_obj (CStr.lit "id") with
              | Some (cJSON_Number valueint) => valueint
              | _ => 1
              end
          | _ => 1
          end in
        [PlayPcmById pcm_id;
         SendText (PlayPcmResult pcm_id (play pcm_id =? ESP_OK))]
      else []
    | _ => []
    end
  end.

End Cmd.

(** ** Captive portal catch-all ([captive_portal_handler]) *)

Module Portal.

(** The two request headers the handler looks at ([None]: absent). *)
Record portal_req := {
  user_agent : option (list byte);
  host : option (list byte)
}.

(** [httpd_req_get_hdr_value_len]: zero for a header that is absent. *)
Definition httpd_req_get_hdr_value_len (value : option (list byte)) : nat :=
  match value with
  | None => 0
  | Some v => length v
  end.

(** [strstr(hay, needle) != NULL] *)
Definition contains (hay : list byte) (needle : string) : bool :=
  match Http.strstr (CStr.c_str hay) (CStr.lit needle) with
  | Some _ => true
  | None => false
  end.

Definition is_xiaomi (req : portal_req) : bool :=
  let ua_len := httpd_req_get_hdr_value_len (user_agent req) in
  if (0 <? ua_len)%nat && (ua_len <? 128)%nat then
    let ua_buf := default [] (user_agent req) in
    contains ua_buf "MiuiBrowser" || contains ua_buf "XiaoMi" || contains ua_buf "MI "
  else false.

Definition is_apple (req : portal_req) : bool :=
  let ua_len := httpd_req_get_hdr_value_len (user_agent req) in
  let host_len := httpd_req_get_hdr_value_len (host req) in
  (if (0 <? ua_len)%nat && (ua_len <? 128)%nat then
     let ua_buf := default [] (user_agent req) in
     contains ua_buf "iPhone" || contains ua_buf "iPad" || contains ua_buf "Mac"
   else false)
  || (if (0 <? host_len)%nat && (host_len <? 64)%nat then
        contains (default [] (host req)) "captive.apple.com"
      else false).

(** The three bodies: none (with status 302), the page with a meta
    refresh, and the page with a meta refresh and a script. *)
Inductive portal_body :=
| NoBody
| MetaRefreshPage
| MetaRefreshScriptPage.

Inductive portal_call :=
| RespSetHdr (field value : string)
| RespSetStatus (status : string)
| RespSetType (mime : string)
| RespSend (doc : portal_body).

Definition captive_portal_handler (req : portal_req) : list portal_call :=
  [RespSetHdr "Cache-Control" "no-store, no-cache, must-revalidate, max-age=0";
   RespSetHdr "Pragma" "no-cache";
   RespSetHdr "Expires" "0";
   RespSetHdr "Connection" "close"]
  ++ (if is_xiaomi req then
        [RespSetStatus "302 Found";
         RespSetHdr "Location" "http://192.168.4.1/";
         RespSend NoBody]
      else if is_apple req then
        [RespSetType "text/html"; RespSend MetaRefreshPage]
      else
        [RespSetType "text/html"; RespSend MetaRefreshScriptPage]).

End Portal.

(** ** Audio playback ([board_audio_play]) *)

Module Audio.
Import Esp.

(** What the I2S driver answers: the code and byte count of
    [i2s_channel_preload_data], the code of [i2s_channel_enable], and the
    code and byte count of each successive [i2s_channel_write].  A call
    never takes more bytes than it was offered. *)
Record i2s_env := {
  preload : Z * nat;
  enable : Z;
  writes : list (Z * nat)
}.

Inductive i2s_call :=
| I2sPreload (size taken : nat)
| PaPower (on : bool)
| I2sEnable
| I2sWrite (offset size taken : nat)
| VTaskDelay500
| I2sDisable.

(** [while (remaining > 0) { ret = i2s_channel_write(...); if (ret !=
    ESP_OK) break; if (bytes_written > 0) { remaining -= bytes_written;
    offset += bytes_written; } }], run against the answers of the driver.
    The boolean says whether the loop was left; it is not when the answers
    run out with bytes remaining. *)
Fixpoint play_loop (ws : list (Z * nat)) (remaining offset : nat)
  : list i2s_call * bool :=
  match remaining with
  | O => ([], true)
  | S _ =>
      match ws with
      | [] => ([], false)
      | (ret, n) :: ws =>
          if failed ret then ([I2sWrite offset remaining 0], true)
          else
            let bytes_written := Nat.min n remaining in
            let '(calls, finished) :=
              play_loop ws (remaining - bytes_written) (offset + bytes_written) in
            (I2sWrite offset remaining bytes_written :: calls, finished)
      end
  end.

(** [tx_handle] and [buffer] say whether the pointer is non-null.  The
    result is [None] when the function has not returned. *)
Definition board_audio_play (tx_handle buffer : bool) (buffer_size : nat)
    (env : i2s_env) : option Z * list i2s_call :=
  if negb tx_handle || negb buffer || (buffer_size =? 0)%nat
  then (Some ESP_ERR_INVALID_ARG, []) else
  let preload_size := if (1024 <? buffer_size)%nat then 1024%nat else buffer_size in
  let bytes_written := Nat.min (snd (preload env)) preload_size in
  if failed (fst (preload env))
  then (Some (fst (preload env)), [I2sPreload preload_size 0]) else
  if failed (enable env)
  then (Some (enable env),
        [I2sPreload preload_size bytes_written; PaPower true; I2sEnable;
         PaPower false]) else
  let '(calls, finished) :=
    play_loop (writes env) (buffer_size - bytes_written) bytes_written in
  if finished then
    (Some ESP_OK,
     [I2sPreload preload_size bytes_written; PaPower true; I2sEnable]
     ++ calls ++ [VTaskDelay500; I2sDisable; PaPower false])
  else
    (None,
     [I2sPreload preload_size bytes_written; PaPower true; I2sEnable] ++ calls).

(** Whether the amplifier is on after a sequence of calls that started
    with it in state [on]. *)
Definition pa_after (on : bool) (calls : list i2s_call) : bool :=
  fold_left (fun on c => match c with PaPower e => e | _ => on end) calls on.

(** The bytes the driver took, preload and successful writes together. *)
Definition bytes_taken (calls : list i2s_call) : nat :=
  fold_right (fun c acc =>
                match c with
                | I2sPreload _ n => n + acc
                | I2sWrite _ _ n => n + acc
                | _ => acc
                end)%nat 0%nat calls.

End Audio.

(** ** Observations on traces, used to state properties *)

Module StaView.
Import Esp Sta.

(** A delay the handler inserted lies between 500 and 8000 ms. *)
Definition delay_in_range (a : action) : Prop :=
  match a with
  | VTaskDelayMs ms => 500 <= ms <= 8000
  | EspWifiConnect => True
  end.

(** The station event group exists and has its connected bit set. *)
Definition group_connected (st : sta) : Prop :=
  ∃ g, s_wifi_event_group st = Some g ∧ bit_set g WIFI_CONNECTED_BIT = true.

End StaView.

Module SessionView.
Import Session.

Definition is_connected_event (tev : Z * ws_event) : bool :=
  match snd tev with
  | WEBSOCKET_EVENT_CONNECTED => true
  | WEBSOCKET_EVENT_DISCONNECTED => false
  end.

(** How many device-identity messages were sent. *)
Definition identity_messages (s : session) : nat :=
  length (List.filter
            (fun e => match e with SendDeviceConnected => true | _ => false end)
            (effects s)).

End SessionView.

Module DnsView.
Import Dns.

(** The array [dns_reply] still holds the fixed bytes of its initialiser
    after the two bytes of the transaction id. *)
Definition header_intact (dns_reply : list byte) : Prop :=
  drop 2 dns_reply = drop 2 dns_reply_init ∧ (2 <= length dns_reply)%nat.

End DnsView.

Module HttpView.
Import CStr.

(** The body a browser posts for a network name and a secret. *)
Definition form_body (ssid password : list byte) : list byte :=
  lit "ssid=" ++ ssid ++ lit "&password=" ++ password.

(** [needle] occurs somewhere in [hay]. *)
Definition occurs (needle hay : list byte) : Prop :=
  ∃ pre post, hay = pre ++ needle ++ post.

End HttpView.

Module ButtonView.

(** A press at tick [fst pr] released at tick [snd pr], as the two edges
    the pin shows: level 0, then level 1. *)
Definition press_and_release (pr : Z * Z) : list (Z * Z) :=
  [(fst pr, 0); (snd pr, 1)].

End ButtonView.

Module PortalView.
Import CStr HttpView Portal.

(** Header [value] is present, not empty, shorter than [limit] and
    contains [needle]. *)
Definition header_has (value : option (list byte)) (limit : nat) (needle : string)
  : Prop :=
  ∃ v, value = Some v ∧ (0 < length v < limit)%nat ∧ occurs (lit needle) v.

Definition xiaomi_marks (req : portal_req) : Prop :=
  header_has (user_agent req) 128 "MiuiBrowser"
  ∨ header_has (user_agent req) 128 "XiaoMi"
  ∨ header_has (user_agent req) 128 "MI ".

Definition apple_marks (req : portal_req) : Prop :=
  header_has (user_agent req) 128 "iPhone"
  ∨ header_has (user_agent req) 128 "iPad"
  ∨ header_has (user_agent req) 128 "Mac"
  ∨ header_has (host req) 64 "captive.apple.com".

(** Header values are C strings. *)
Definition nul_free_headers (req : portal_req) : Prop :=
  (∀ v, user_agent req = Some v → Forall (fun c => c ≠ x00) v)
  ∧ (∀ v, host req = Some v → Forall (fun c => c ≠ x00) v).

Definition no_cache_headers : list portal_call :=
  [RespSetHdr "Cache-Control" "no-store, no-cache, must-revalidate, max-age=0";
   RespSetHdr "Pragma" "no-cache";
   RespSetHdr "Expires" "0";
   RespSetHdr "Connection" "close"].

End PortalView.

(* ================================================================== *)
(** * Part II: properties                                              *)
(* ================================================================== *)

(** ** Credential store *)

Module CredsFacts.
Import Esp Nvs Creds CStr.

Lemma draw_healthy pg : draw {| pages := pg; faults := [] |}
                        = (ESP_OK, {| pages := pg; faults := [] |}).
Proof. reflexivity. Qed.

(** X26.  Below the limits the store round-trips: on a healthy flash, a name
    of 1 to 31 bytes and a secret of at most 63 bytes are saved and read
    back unchanged. *)
Lemma save_query_roundtrip_below_limits (ssid password : list byte) (st : board) :
  healthy (nvs st) →
  (1 <= strlen ssid <= 31)%nat →
  (strlen password <= 63)%nat →
  save_then_query ssid password st
  = (ESP_OK, {| found := true;
                ssid_out := Some (c_str ssid);
                password_out := Some (c_str password) |}).
Proof.
  destruct st as [[pg fs] g]. unfold healthy. simpl. intros -> Hs Hp.
  unfold save_then_query, board_wifi_save_config, strlen in *.
  assert (E1 : (length (c_str ssid) =? 0)%nat = false) by (apply Nat.eqb_neq; lia).
  assert (E2 : (32 <? length (c_str ssid))%nat = false) by (apply Nat.ltb_ge; lia).
  assert (E3 : (64 <? length (c_str password))%nat = false) by (apply Nat.ltb_ge; lia).
  rewrite E1, E2, E3. simpl.
  unfold nvs_open, nvs_set_str, nvs_commit. simpl.
  assert (Q : ∀ pg' : gmap string (gmap string (list byte)),
    pg' !! BOARD_WIFI_NVS_NAMESPACE
      = Some (<[BOARD_WIFI_PASSWORD_KEY := c_str password]>
                (<[BOARD_WIFI_SSID_KEY := c_str ssid]>
                   (default ∅ (pg !! BOARD_WIFI_NVS_NAMESPACE)))) →
    fst (board_wifi_has_valid_config true true {| pages := pg'; faults := [] |})
    = {| found := true; ssid_out := Some (c_str ssid);
         password_out := Some (c_str password) |}).
  { intros pg' Hpg'.
    unfold board_wifi_has_valid_config, nvs_open, nvs_get_str, entry. simpl.
    rewrite Hpg'. simpl. rewrite Hpg'.
    rewrite lookup_insert_ne by discriminate. rewrite lookup_insert_eq.
    simpl.
    assert (E4 : (32 <? S (length (c_str ssid)))%nat = false) by (apply Nat.ltb_ge; lia).
    rewrite E4. simpl. rewrite Hpg'. rewrite lookup_insert_eq. simpl.
    assert (E5 : (64 <? S (length (c_str password)))%nat = false) by (apply Nat.ltb_ge; lia).
    rewrite E5. simpl. rewrite Hpg'.
    rewrite lookup_insert_ne by discriminate. rewrite lookup_insert_eq.
    rewrite Nat.ltb_irrefl. simpl. rewrite Hpg'. rewrite lookup_insert_eq.
    rewrite Nat.ltb_irrefl. reflexivity. }
  destruct (pg !! BOARD_WIFI_NVS_NAMESPACE) as [ns|] eqn:Hns; simpl.
  - rewrite Hns. simpl. rewrite lookup_insert_eq. simpl.
    f_equal. apply Q. rewrite lookup_insert_eq. reflexivity.
  - rewrite lookup_insert_eq. simpl. rewrite lookup_insert_eq. simpl.
    f_equal. apply Q. rewrite lookup_insert_eq. reflexivity.
Qed.

Lemma save_query_roundtrip_below_limits_witness :
  save_then_query (lit "home") (lit "secret1") fresh_board
  = (ESP_OK, {| found := true;
                ssid_out := Some (c_str (lit "home"));
                password_out := Some (c_str (lit "secret1")) |}).
Proof.
  apply save_query_roundtrip_below_limits;
    [reflexivity | vm_compute; lia | vm_compute; lia].
Defined.

(** C1, at the upper limit of the name.  A 32-byte network name with the
    secret [secret1] is accepted by [board_wifi_save_config] on an empty,
    healthy store, yet the query that follows reports no valid
    configuration: the size [nvs_get_str] reports counts the terminating
    NUL, so the stored name measures 33 and fails the [ssid_len > 32]
    test. *)
Theorem save_then_query_rejects_32_byte_ssid :
  strlen (repeat x61 32) = 32%nat ∧
  save_then_query (repeat x61 32) (lit "secret1") fresh_board
  = (ESP_OK, no_config).
Proof. split; vm_compute; reflexivity. Qed.

(** The same happens at the upper limit of the secret (64 bytes). *)
Lemma save_then_query_rejects_64_byte_password :
  save_then_query (lit "MyNet") (repeat x61 64) fresh_board
  = (ESP_OK, no_config).
Proof. vm_compute. reflexivity. Qed.

(** C2.  A network name that is empty or longer than 32 bytes, or a
    secret longer than 64 bytes, makes [board_wifi_save_config] return
    [ESP_ERR_INVALID_ARG] and leaves the whole board state (the stored
    keys, the pending faults of the flash and the event bits) as it
    was. *)
Theorem save_rejects_invalid_credentials (ssid password : list byte) (st : board) :
  (strlen ssid = 0 ∨ 32 < strlen ssid ∨ 64 < strlen password)%nat →
  board_wifi_save_config (Some ssid) (Some password) st
  = (ESP_ERR_INVALID_ARG, st).
Proof.
  intros H. unfold board_wifi_save_config.
  destruct (strlen ssid =? 0)%nat eqn:E0; [reflexivity|].
  destruct (32 <? strlen ssid)%nat eqn:E1; [reflexivity|].
  destruct (64 <? strlen password)%nat eqn:E2; [reflexivity|].
  apply Nat.eqb_neq in E0. apply Nat.ltb_ge in E1, E2. lia.
Qed.

Lemma save_rejects_invalid_credentials_witness :
  (strlen (repeat x61 33) = 0 ∨ 32 < strlen (repeat x61 33)
   ∨ 64 < strlen (lit "secret1"))%nat
  ∧ board_wifi_save_config (Some (repeat x61 33)) (Some (lit "secret1")) fresh_board
    = (ESP_ERR_INVALID_ARG, fresh_board).
Proof.
  split.
  - right; left. vm_compute. lia.
  - apply (save_rejects_invalid_credentials (repeat x61 33) (lit "secret1") fresh_board).
    right; left. vm_compute. lia.
Defined.

End CredsFacts.

(** ** Station connection manager *)

Module StaFacts.
Import Esp Sta.




Lemma wrap32_small z : -2 ^ 31 <= z < 2 ^ 31 → wrap32 z = z.
Proof. intros H. unfold wrap32. rewrite Z.mod_small; lia. Qed.

Lemma deliver_cons ev evs st :
  deliver (ev :: evs) st = deliver evs (wifi_sta_event_handler ev st).
Proof. reflexivity. Qed.

Lemma deliver_app evs1 evs2 st :
  deliver (evs1 ++ evs2) st = deliver evs2 (deliver evs1 st).
Proof. apply fold_left_app. Qed.

(** One disconnect below the maximum: back off, reconnect, count. *)
Lemma disconnect_below_max r st :
  0 <= s_wifi_retry_num st < BOARD_WIFI_MAX_RETRY →
  wifi_sta_event_handler (WIFI_EVENT_STA_DISCONNECTED r) st
  = {| s_wifi_retry_num := s_wifi_retry_num st + 1;
       s_wifi_event_group := s_wifi_event_group st;
       board_event_group := board_event_group st;
       actions := actions st ++
                  [VTaskDelayMs (backoff_ms (s_wifi_retry_num st));
                   EspWifiConnect] |}.
Proof.
  intros H. unfold wifi_sta_event_handler.
  replace (s_wifi_retry_num st <? BOARD_WIFI_MAX_RETRY) with true
    by (symmetry; apply Z.ltb_lt; lia).
  rewrite wrap32_small; [reflexivity|].
  unfold BOARD_WIFI_MAX_RETRY in H. lia.
Qed.

(** One disconnect at the maximum: only the fail bits are raised. *)
Lemma disconnect_at_max r st :
  s_wifi_retry_num st = BOARD_WIFI_MAX_RETRY →
  wifi_sta_event_handler (WIFI_EVENT_STA_DISCONNECTED r) st
  = {| s_wifi_retry_num := BOARD_WIFI_MAX_RETRY;
       s_wifi_event_group :=
         (fun g => xEventGroupSetBits g WIFI_FAIL_BIT) <$> s_wifi_event_group st;
       board_event_group :=
         xEventGroupSetBits (board_event_group st) WIFI_FAIL_BIT;
       actions := actions st |}.
Proof.
  intros H. unfold wifi_sta_event_handler. rewrite H. reflexivity.
Qed.










End StaFacts.

(** ** Session manager *)

Module SessionFacts.
Import Esp Session.

Lemma run_app evs1 evs2 s : run (evs1 ++ evs2) s = run evs2 (run evs1 s).
Proof. apply fold_left_app. Qed.

(** Disconnects alone never clear the flag nor play anything. *)
Lemma disconnects_keep_flag ds : ∀ s,
  Forall (fun tev => snd tev = WEBSOCKET_EVENT_DISCONNECTED) ds →
  first_connection s = true →
  first_connection (run ds s) = true ∧ effects (run ds s) = effects s.
Proof.
  induction ds as [|[t ev] ds IH]; intros s Hall Hflag.
  - split; [exact Hflag | reflexivity].
  - apply Forall_cons in Hall as [Hev Hall]. simpl in Hev. subst ev.
    change (run ((t, WEBSOCKET_EVENT_DISCONNECTED) :: ds) s)
      with (run ds (deliver s (t, WEBSOCKET_EVENT_DISCONNECTED))).
    assert (H : first_connection (deliver s (t, WEBSOCKET_EVENT_DISCONNECTED)) = true
                ∧ effects (deliver s (t, WEBSOCKET_EVENT_DISCONNECTED)) = effects s).
    { unfold deliver, timer_service. cbn [fst snd].
      destruct (reset_timer s) as [[|expiry]|]; cbn; auto.
      destruct (expiry <=? t); cbn; auto. }
    destruct H as [H1 H2]. destruct (IH _ Hall H1) as [I1 I2].
    split; [exact I1 | congruence].
Qed.

(** X27.  The first Connected event after boot plays the connection sound,
    however many Disconnected events came before it. *)
Lemma first_connect_announces_once ds t :
  Forall (fun tev => snd tev = WEBSOCKET_EVENT_DISCONNECTED) ds →
  announcements (run (ds ++ [(t, WEBSOCKET_EVENT_CONNECTED)]) boot) = 1%nat.
Proof.
  intros Hall. rewrite run_app.
  destruct (disconnects_keep_flag ds boot Hall eq_refl) as [H1 H2].
  change (run [(t, WEBSOCKET_EVENT_CONNECTED)] ?s)
    with (deliver s (t, WEBSOCKET_EVENT_CONNECTED)).
  assert (F : first_connection (timer_service t (run ds boot)) = true
              ∧ effects (timer_service t (run ds boot)) = []).
  { unfold timer_service.
    destruct (reset_timer (run ds boot)) as [[|expiry]|]; cbn; auto.
    destruct (expiry <=? t); cbn; auto. }
  destruct F as [F1 F2].
  unfold deliver, announcements. cbn [fst snd websocket_event_handler effects].
  rewrite F1, F2. reflexivity.
Qed.

Lemma first_connect_announces_once_witness :
  announcements
    (run ([(0, WEBSOCKET_EVENT_DISCONNECTED); (40000, WEBSOCKET_EVENT_DISCONNECTED)]
          ++ [(41000, WEBSOCKET_EVENT_CONNECTED)]) boot) = 1%nat.
Proof.
  apply first_connect_announces_once. repeat constructor.
Defined.

(** X28.  Boot, connect, disconnect, reconnect before the timer armed by that
    disconnect expires: the sound is played once. *)
Lemma reconnect_before_expiry_is_silent t0 t1 t2 :
  t2 < t1 + RESET_PERIOD →
  announcements
    (run [(t0, WEBSOCKET_EVENT_CONNECTED);
          (t1, WEBSOCKET_EVENT_DISCONNECTED);
          (t2, WEBSOCKET_EVENT_CONNECTED)] boot) = 1%nat.
Proof.
  intros H. unfold run, deliver, timer_service, announcements. cbn.
  replace (t1 + RESET_PERIOD <=? t2) with false
    by (symmetry; apply Z.leb_gt; exact H).
  reflexivity.
Qed.

Lemma reconnect_before_expiry_is_silent_witness :
  announcements
    (run [(0, WEBSOCKET_EVENT_CONNECTED);
          (1000, WEBSOCKET_EVENT_DISCONNECTED);
          (2000, WEBSOCKET_EVENT_CONNECTED)] boot) = 1%nat.
Proof.
  apply reconnect_before_expiry_is_silent. vm_compute. reflexivity.
Defined.

(** C5 on a run where a connection attempt failed before the first
    success.  The Disconnected event at tick 0 arms the timer; the
    session connects at tick 1000 and plays the sound; the timer still
    expires at tick 30000 and sets the flag again while the session is
    up; after the disconnect at tick 60000 the reconnect one second
    later plays the sound a second time. *)
Theorem reconnect_within_quiet_period_announces_again :
  announcements
    (run [(0, WEBSOCKET_EVENT_DISCONNECTED);
          (1000, WEBSOCKET_EVENT_CONNECTED);
          (60000, WEBSOCKET_EVENT_DISCONNECTED);
          (61000, WEBSOCKET_EVENT_CONNECTED)] boot) = 2%nat.
Proof. vm_compute. reflexivity. Qed.

(** The same without a leading failure: the third connect, one second
    after the second disconnect, plays the sound again. *)
Lemma third_connect_announces_again :
  announcements
    (run [(0, WEBSOCKET_EVENT_CONNECTED);
          (1000, WEBSOCKET_EVENT_DISCONNECTED);
          (2000, WEBSOCKET_EVENT_CONNECTED);
          (60000, WEBSOCKET_EVENT_DISCONNECTED);
          (61000, WEBSOCKET_EVENT_CONNECTED)] boot) = 2%nat.
Proof. vm_compute. reflexivity. Qed.

(** C6 on a reconnect inside the quiet period.  The session disconnects
    at tick 1000 and is connected again at tick 2000, with the flag
    false; the timer armed at tick 1000 is not stopped by the reconnect,
    so when the timer service runs at tick 31000 the flag is true again
    although the session has been up since tick 2000. *)
Theorem flag_reset_although_reconnected :
  let s := run [(0, WEBSOCKET_EVENT_CONNECTED);
                (1000, WEBSOCKET_EVENT_DISCONNECTED);
                (2000, WEBSOCKET_EVENT_CONNECTED)] boot in
  first_connection s = false ∧
  s_system_state s = SYSTEM_STATE_WS_CONNECTED ∧
  reset_timer s = Some (ActiveUntil 31000) ∧
  first_connection (timer_service 31000 s) = true ∧
  s_system_state (timer_service 31000 s) = SYSTEM_STATE_WS_CONNECTED.
Proof. vm_compute. repeat split. Qed.

(** The Connected branch never touches the timer. *)
Lemma connected_leaves_timer_running now s :
  reset_timer (websocket_event_handler WEBSOCKET_EVENT_CONNECTED now s)
  = reset_timer s.
Proof. reflexivity. Qed.

End SessionFacts.

(** ** DNS responder *)

Module DnsFacts.
Import Dns.

(** *** The label scan on a well-formed query *)

Lemma rx_at_nonneg rx i : 0 <= rx_at rx i.
Proof. unfold rx_at. lia. Qed.

Lemma rx_at_middle (pre post : list byte) (b : byte) :
  rx_at (pre ++ b :: post) (Z.of_nat (length pre)) = Z.of_N (Byte.to_N b).
Proof. unfold rx_at. rewrite Nat2Z.id, nth_middle. reflexivity. Qed.

Lemma length_byte_value (l : list byte) :
  (length l <= 255)%nat →
  Z.of_N (Byte.to_N (default x00 (Byte.of_N (N.of_nat (length l)))))
  = Z.of_nat (length l).
Proof.
  intros H. destruct (Byte.of_N (N.of_nat (length l))) as [b|] eqn:E.
  - cbn. rewrite (Byte.to_of_N _ E). lia.
  - apply Byte.of_N_None_iff in E. lia.
Qed.

Lemma encode_name_cons l ls :
  encode_name (l :: ls) = encode_label l ++ encode_name ls.
Proof. unfold encode_name. cbn [map concat]. now rewrite <- app_assoc. Qed.

Lemma length_encode_label l : length (encode_label l) = S (length l).
Proof. reflexivity. Qed.

(** The scan only looks at bytes below [len]. *)
Lemma skip_labels_ext fuel : ∀ rx d len pos,
  0 <= pos →
  (∀ i, 0 <= i < len → rx_at rx i = rx_at d i) →
  skip_labels fuel rx len pos = skip_labels fuel d len pos.
Proof.
  induction fuel as [|fuel IH]; intros rx d len pos Hpos Hagree; [reflexivity|].
  cbn [skip_labels]. destruct (pos <? len) eqn:E; [|reflexivity].
  apply Z.ltb_lt in E. rewrite (Hagree pos) by lia. cbn [andb].
  destruct (negb (rx_at d pos =? 0)); [|reflexivity].
  apply IH; [pose proof (rx_at_nonneg d pos); lia | exact Hagree].
Qed.

(** The 128 rounds are enough.  When the distance to [len] is below the
    number of rounds, the scan ends because the loop condition is false,
    and one more round changes nothing. *)
Lemma skip_labels_exits fuel : ∀ rx len pos,
  len - pos < Z.of_nat fuel →
  let r := skip_labels fuel rx len pos in
  (r <? len) && negb (rx_at rx r =? 0) = false ∧
  skip_labels (S fuel) rx len pos = r.
Proof.
  induction fuel as [|fuel IH]; intros rx len pos Hfuel; cbv zeta.
  - cbn [skip_labels].
    replace (pos <? len) with false by (symmetry; apply Z.ltb_ge; lia).
    split; reflexivity.
  - cbn [skip_labels].
    destruct ((pos <? len) && negb (rx_at rx pos =? 0)) eqn:C.
    + destruct (IH rx len (pos + (rx_at rx pos + 1))) as [I1 I2].
      { pose proof (rx_at_nonneg rx pos). lia. }
      split; [exact I1|]. cbn [skip_labels] in I2. exact I2.
    + split; [exact C | reflexivity].
Qed.

(** X29.  The label scan ends for every datagram: where it stops, the
    position is at or past the received length or holds the zero byte, so
    the [while] loop of the responder cannot run on. *)
Lemma question_end_total (r : recv_result) :
  let len := fst (recvfrom r) in
  let rx := snd (recvfrom r) in
  let stop := question_end rx len - 5 in
  (stop <? len) && negb (rx_at rx stop =? 0) = false.
Proof.
  cbv zeta. unfold question_end.
  replace (skip_labels 128 (snd (recvfrom r)) (fst (recvfrom r)) 12 + 5 - 5)
    with (skip_labels 128 (snd (recvfrom r)) (fst (recvfrom r)) 12) by lia.
  apply skip_labels_exits.
  destruct r as [|d]; unfold recvfrom; cbn [fst].
  - lia.
  - rewrite length_take. lia.
Qed.

(** Scanning a name that starts at [length pre]: with enough rounds
    left, the scan stops on the closing zero byte when that byte lies
    below [len], and at or beyond [len] otherwise. *)
Lemma skip_labels_walk labels : ∀ pre post fuel len,
  Forall (fun l => (1 <= length l <= 63)%nat) labels →
  len - Z.of_nat (length pre) < Z.of_nat fuel →
  let d := pre ++ encode_name labels ++ post in
  let term := Z.of_nat (length pre) + Z.of_nat (length (encode_name labels)) - 1 in
  let r := skip_labels fuel d len (Z.of_nat (length pre)) in
  (term < len → r = term) ∧ (len <= term → len <= r).
Proof.
  induction labels as [|l ls IH]; intros pre post fuel len Hwf Hfuel; cbv zeta.
  - change (encode_name []) with [x00]. cbn [length app].
    destruct fuel as [|fuel]; cbn [skip_labels].
    + split; lia.
    + rewrite rx_at_middle. cbn [Byte.to_N Z.of_N Z.eqb negb].
      rewrite andb_false_r. split; lia.
  - apply Forall_cons in Hwf as [Hl Hls].
    set (pos := Z.of_nat (length pre)) in *.
    assert (Hd : pre ++ encode_name (l :: ls) ++ post
                 = (pre ++ encode_label l) ++ encode_name ls ++ post)
      by (rewrite encode_name_cons; now rewrite <- !app_assoc).
    assert (Hat : rx_at (pre ++ encode_name (l :: ls) ++ post) pos
                  = Z.of_nat (length l)).
    { rewrite encode_name_cons. unfold encode_label. rewrite <- !app_assoc.
      cbn [app]. subst pos. rewrite rx_at_middle. apply length_byte_value. lia. }
    assert (Hlen : Z.of_nat (length (encode_name (l :: ls)))
                   = Z.of_nat (length l) + 1 + Z.of_nat (length (encode_name ls)))
      by (rewrite encode_name_cons, length_app, length_encode_label; lia).
    rewrite Hlen.
    destruct fuel as [|fuel]; [cbn [skip_labels]; split; lia|].
    assert (Step : skip_labels (S fuel) (pre ++ encode_name (l :: ls) ++ post) len pos
                   = if pos <? len
                     then skip_labels fuel ((pre ++ encode_label l) ++ encode_name ls ++ post)
                            len (Z.of_nat (length (pre ++ encode_label l)))
                     else pos).
    { cbn [skip_labels]. rewrite Hat.
      replace (Z.of_nat (length l) =? 0) with false by (symmetry; apply Z.eqb_neq; lia).
      cbn [negb]. rewrite andb_true_r. rewrite <- Hd.
      replace (Z.of_nat (length (pre ++ encode_label l)))
        with (pos + (Z.of_nat (length l) + 1))
        by (rewrite length_app, length_encode_label; subst pos; lia).
      reflexivity. }
    rewrite Step. clear Step.
    destruct (pos <? len) eqn:E.
    + apply Z.ltb_lt in E.
      destruct (IH (pre ++ encode_label l) post fuel len Hls) as [I1 I2].
      { rewrite length_app, length_encode_label. subst pos. lia. }
      assert (P : Z.of_nat (length (pre ++ encode_label l))
                  = pos + Z.of_nat (length l) + 1)
        by (rewrite length_app, length_encode_label; subst pos; lia).
      rewrite P in I1, I2 |- *. split; intros H.
      * rewrite I1; lia.
      * apply I2. lia.
    + apply Z.ltb_ge in E. split; lia.
Qed.

(** *** What [recvfrom] leaves in the buffer *)

Lemma recvfrom_len d :
  fst (recvfrom (RecvDatagram d)) = Z.of_nat (Nat.min 128 (length d)).
Proof. unfold recvfrom. cbn [fst]. now rewrite length_take. Qed.

Lemma recvfrom_nth d (i : nat) :
  (i < Nat.min 128 (length d))%nat →
  nth i (snd (recvfrom (RecvDatagram d))) x00 = nth i d x00.
Proof.
  intros H. unfold recvfrom. cbn [snd].
  rewrite app_nth1 by (rewrite length_take; lia).
  rewrite nth_firstn.
  replace (i <? 128)%nat with true by (symmetry; apply Nat.ltb_lt; lia).
  reflexivity.
Qed.

Lemma recvfrom_rx_at d i :
  0 <= i < fst (recvfrom (RecvDatagram d)) →
  rx_at (snd (recvfrom (RecvDatagram d))) i = rx_at d i.
Proof.
  rewrite recvfrom_len. intros H. unfold rx_at.
  rewrite recvfrom_nth by lia. reflexivity.
Qed.

Lemma recvfrom_prefix d (n : nat) :
  (n <= Nat.min 128 (length d))%nat →
  take n (snd (recvfrom (RecvDatagram d))) = take n d.
Proof.
  intros H. unfold recvfrom. cbn [snd].
  rewrite take_app_le by (rewrite length_take; lia).
  rewrite take_take. f_equal. lia.
Qed.

Lemma length_encode_question q :
  length (encode_question q) = (length (encode_name (q_labels q)) + 4)%nat.
Proof. unfold encode_question. now rewrite length_app. Qed.

Lemma length_encode_query q :
  length (q_rest_of_header q) = 10%nat →
  length (encode_query q)
  = (12 + length (encode_question q) + length (q_trailer q))%nat.
Proof.
  intros H. unfold encode_query. rewrite !length_app, H. cbn [length]. lia.
Qed.

(** Where the scan ends on a well-formed query: right after the
    question when the closing zero byte was received, and beyond the
    received length otherwise. *)
Lemma question_end_well_formed q :
  well_formed q →
  let r := recvfrom (RecvDatagram (encode_query q)) in
  let name_end := 12 + Z.of_nat (length (encode_name (q_labels q))) - 1 in
  (name_end < fst r →
   question_end (snd r) (fst r) = 12 + Z.of_nat (length (encode_question q)))
  ∧ (fst r <= name_end → fst r < question_end (snd r) (fst r)).
Proof.
  intros [Hhdr Hwf]. cbv zeta. unfold question_end.
  rewrite (skip_labels_ext 128 _ (encode_query q)); [|lia|apply recvfrom_rx_at].
  pose proof (recvfrom_len (encode_query q)) as Hlen.
  set (len := fst (recvfrom (RecvDatagram (encode_query q)))) in *.
  pose proof (skip_labels_walk (q_labels q)
                ([fst (q_id q); snd (q_id q)] ++ q_rest_of_header q)
                ([fst (q_type q); snd (q_type q); fst (q_class q); snd (q_class q)]
                 ++ q_trailer q)
                128 len Hwf) as W.
  cbv zeta in W. rewrite length_app, Hhdr in W. cbn [length Nat.add] in W.
  change (Z.of_nat 12) with 12 in W.
  replace (([fst (q_id q); snd (q_id q)] ++ q_rest_of_header q) ++
           encode_name (q_labels q) ++
           [fst (q_type q); snd (q_type q); fst (q_class q); snd (q_class q)] ++
           q_trailer q) with (encode_query q) in W
    by (unfold encode_query, encode_question; now rewrite <- !app_assoc).
  destruct W as [W1 W2]; [lia|].
  rewrite length_encode_question. split; intros H.
  - rewrite W1 by exact H. lia.
  - specialize (W2 H). lia.
Qed.

(** The question as copied out of the receive buffer. *)
Lemma question_bytes_well_formed q :
  length (q_rest_of_header q) = 10%nat →
  12 + Z.of_nat (length (encode_question q)) <= 64 →
  question_bytes (snd (recvfrom (RecvDatagram (encode_query q))))
                 (12 + Z.of_nat (length (encode_question q)))
  = encode_question q.
Proof.
  intros Hhdr Hfit. unfold question_bytes.
  replace (Z.to_nat (12 + Z.of_nat (length (encode_question q)) - 12))
    with (length (encode_question q)) by lia.
  rewrite take_drop_commute.
  rewrite recvfrom_prefix by (rewrite length_encode_query by exact Hhdr; lia).
  unfold encode_query.
  replace ([fst (q_id q); snd (q_id q)] ++ q_rest_of_header q ++
           encode_question q ++ q_trailer q)
    with ((([fst (q_id q); snd (q_id q)] ++ q_rest_of_header q)
           ++ encode_question q) ++ q_trailer q)
    by (now rewrite <- !app_assoc).
  rewrite take_app_length' by (rewrite !length_app, Hhdr; cbn [length]; lia).
  rewrite drop_app_length' by (rewrite length_app, Hhdr; reflexivity).
  reflexivity.
Qed.

(** C4.  For a well-formed query the responder answers exactly when the
    question ends within the first 64 bytes of the datagram, and the
    reply is then: the two bytes of the transaction id, the bytes
    81 80 and the counts 1, 1, 0, 0, the question as received, and one
    answer record made of the pointer C0 0C, type A, class IN, a TTL of
    10, data length 4 and the four bytes of the access-point address.
    The labels of the name appear only in the copied question. *)
Theorem dns_reply_format (ip : esp_ip4_addr_t) (q : dns_query) :
  well_formed q →
  dns_respond ip (RecvDatagram (encode_query q))
  = if 12 + Z.of_nat (length (encode_question q)) <=? 64
    then Some ([fst (q_id q); snd (q_id q);
                x81; x80; x00; x01; x00; x01; x00; x00; x00; x00]
               ++ encode_question q
               ++ [xc0; x0c; x00; x01; x00; x01; x00; x00; x00; x0a; x00; x04]
               ++ [ip0 ip; ip1 ip; ip2 ip; ip3 ip])
    else None.
Proof.
  intros Hq. pose proof Hq as [Hhdr Hwf].
  pose proof (question_end_well_formed q Hq) as [E1 E2].
  pose proof (recvfrom_len (encode_query q)) as Hlen.
  pose proof (length_encode_query q Hhdr) as Hd.
  pose proof (length_encode_question q) as Hqn.
  pose proof (question_bytes_well_formed q Hhdr) as Hbytes.
  pose proof (recvfrom_nth (encode_query q) 0) as N0.
  pose proof (recvfrom_nth (encode_query q) 1) as N1.
  unfold dns_respond, dns_iteration.
  destruct (recvfrom (RecvDatagram (encode_query q))) as [len rx].
  cbn [fst snd] in *.
  replace (len <? 12) with false by (symmetry; apply Z.ltb_ge; lia).
  rewrite N0, N1 by lia.
  destruct (12 + Z.of_nat (length (encode_question q)) <=? 64) eqn:Fit.
  - apply Z.leb_le in Fit.
    rewrite E1 by lia.
    replace (12 + Z.of_nat (length (encode_question q)) <=? len) with true
      by (symmetry; apply Z.leb_le; lia).
    replace (12 + Z.of_nat (length (encode_question q)) <=? 64) with true
      by (symmetry; apply Z.leb_le; lia).
    rewrite Hbytes by exact Fit. reflexivity.
  - apply Z.leb_gt in Fit.
    destruct (Z.lt_ge_cases (12 + Z.of_nat (length (encode_name (q_labels q))) - 1) len)
      as [Hin | Hout].
    + rewrite E1 by exact Hin.
      replace (12 + Z.of_nat (length (encode_question q)) <=? 64) with false
        by (symmetry; apply Z.leb_gt; lia).
      rewrite andb_false_r. reflexivity.
    + specialize (E2 Hout).
      replace (question_end rx len <=? len) with false
        by (symmetry; apply Z.leb_gt; lia).
      reflexivity.
Qed.

Lemma dns_reply_format_witness :
  let q := {| q_id := (x12, x34);
              q_rest_of_header := [x01; x00; x00; x01; x00; x00; x00; x00; x00; x00];
              q_labels := [CStr.lit "example"; CStr.lit "com"];
              q_type := (x00, x01); q_class := (x00, x01);
              q_trailer := [] |} in
  let ip := {| ip0 := xc0; ip1 := xa8; ip2 := x04; ip3 := x01 |} in
  well_formed q ∧
  dns_respond ip (RecvDatagram (encode_query q))
  = Some ([x12; x34; x81; x80; x00; x01; x00; x01; x00; x00; x00; x00]
          ++ encode_question q
          ++ [xc0; x0c; x00; x01; x00; x01; x00; x00; x00; x0a; x00; x04]
          ++ [xc0; xa8; x04; x01]).
Proof.
  cbv zeta.
  assert (W : well_formed
                {| q_id := (x12, x34);
                   q_rest_of_header := [x01; x00; x00; x01; x00; x00; x00; x00; x00; x00];
                   q_labels := [CStr.lit "example"; CStr.lit "com"];
                   q_type := (x00, x01); q_class := (x00, x01);
                   q_trailer := [] |}).
  { split; [reflexivity|]. repeat constructor; vm_compute; lia. }
  split; [exact W|].
  exact (dns_reply_format {| ip0 := xc0; ip1 := xa8; ip2 := x04; ip3 := x01 |} _ W).
Defined.





(** No pass through the loop body leaves the loop. *)
Lemma dns_iteration_loops_again ip dns_reply r :
  snd (dns_iteration ip dns_reply r) = LoopAgain.
Proof.
  unfold dns_iteration. destruct (recvfrom r) as [len rx].
  destruct (len <? 12); [reflexivity|].
  destruct (_ && _); reflexivity.
Qed.

(** X30.  Whatever the socket returns, errors included, the loop calls
    [recvfrom] once per result and is then waiting in the next call. *)
Lemma dns_server_loop_never_exits ip inputs : ∀ dns_reply,
  snd (dns_server_loop ip dns_reply inputs) = BlockedInRecvfrom ∧
  receive_calls (fst (dns_server_loop ip dns_reply inputs)) = length inputs.
Proof.
  induction inputs as [|r rest IH]; intros dns_reply; cbn [dns_server_loop].
  - split; reflexivity.
  - pose proof (dns_iteration_loops_again ip dns_reply r) as L.
    assert (R : receive_calls (fst (fst (dns_iteration ip dns_reply r))) = 1%nat).
    { unfold dns_iteration. destruct (recvfrom r) as [len rx].
      destruct (len <? 12); [reflexivity|].
      destruct (_ && _); reflexivity. }
    destruct (dns_iteration ip dns_reply r) as [[calls dr] ctl].
    cbn [fst snd] in *. subst ctl.
    destruct (IH dr) as [I1 I2].
    destruct (dns_server_loop ip dr rest) as [more final]. cbn [fst snd] in *.
    split; [exact I1|].
    unfold receive_calls in *. rewrite List.filter_app, length_app.
    cbn [length]. lia.
Qed.

(** C8 on a closed socket.  With the socket created and bound, two
    failing [recvfrom] calls in a row are each followed by a one-tick
    delay and another [recvfrom]: the task has sent nothing, has not
    reached [vTaskDelete] and is inside its third receive call. *)
Theorem dns_task_retries_after_receive_error :
  dns_server_task true true
    {| ip0 := xc0; ip1 := xa8; ip2 := x04; ip3 := x01 |}
    [RecvError; RecvError]
  = ([Recvfrom (-1); VTaskDelay 1; Recvfrom (-1); VTaskDelay 1],
     BlockedInRecvfrom).
Proof. vm_compute. reflexivity. Qed.

End DnsFacts.

(** ** Provisioning endpoint *)

Module HttpFacts.
Import Esp Http.

Lemma httpd_req_recv_prefix (b : list byte) (s : sock_read) :
  httpd_req_recv {| body := take 127 b; sock := s |} 127
  = httpd_req_recv {| body := b; sock := s |} 127.
Proof.
  unfold httpd_req_recv. cbn [sock body].
  destruct s as [| |available]; try reflexivity.
  rewrite take_take.
  replace (Nat.min (Nat.min 127 available) 127) with (Nat.min 127 available) by lia.
  reflexivity.
Qed.

(** A 139-byte body whose secret crosses the bound: the request is
    answered with status ok and the secret is stored cut short. *)
Example long_body_is_truncated_not_rejected :
  let b := CStr.lit "ssid=MyNet&password=" ++ repeat x61 64 ++ repeat x62 55 in
  let st := Creds.fresh_board in
  length b = 139%nat ∧
  match http_server_set_wifi_config_handler {| body := b; sock := SockDeliver 139 |} st with
  | Returned ret resp st' =>
      ret = ESP_OK ∧
      last resp = Some (HttpdRespSendstr StatusOk) ∧
      Nvs.entry {| Nvs.h_namespace := Creds.BOARD_WIFI_NVS_NAMESPACE;
                   Nvs.h_mode := Nvs.NVS_READONLY |}
                Creds.BOARD_WIFI_PASSWORD_KEY (Creds.nvs st')
      = Some (repeat x61 64)
  | StackOverrun => False
  end.
Proof. vm_compute. repeat split. Qed.

End HttpFacts.

(** ** Credential store: reads, writes and the factory reset *)

Module StoreFacts.
Import Esp Nvs Creds CStr Reset.

Lemma failed_false_iff ret : failed ret = false ↔ ret = ESP_OK.
Proof.
  unfold failed. rewrite negb_false_iff. apply Z.eqb_eq.
Qed.

Lemma failed_true_iff ret : failed ret = true ↔ ret ≠ ESP_OK.
Proof.
  unfold failed. rewrite negb_true_iff. apply Z.eqb_neq.
Qed.

Lemma draw_pages fl : pages (snd (draw fl)) = pages fl.
Proof. unfold draw. destruct (faults fl); reflexivity. Qed.

Lemma draw_healthy_ok fl :
  healthy fl → draw fl = (ESP_OK, fl).
Proof. unfold healthy, draw. intros ->. reflexivity. Qed.

Lemma stored_pages name key fl fl' :
  pages fl' = pages fl → stored name key fl' = stored name key fl.
Proof. unfold stored, entry. cbn. now intros ->. Qed.

(** *** The four NVS calls, one at a time *)

Lemma nvs_open_readonly name fl :
  let r := nvs_open name NVS_READONLY fl in
  pages (snd r) = pages fl ∧
  (fst (fst r) = ESP_OK →
   snd (fst r) = Some {| h_namespace := name; h_mode := NVS_READONLY |}) ∧
  (snd (fst r) = None → fst (fst r) ≠ ESP_OK).
Proof.
  cbv zeta. unfold nvs_open.
  pose proof (draw_pages fl) as Hp.
  destruct (draw fl) as [e fl1]. cbn [snd] in Hp.
  destruct (failed e) eqn:Fe; cbn [fst snd].
  - apply failed_true_iff in Fe. repeat split; auto; intros; congruence.
  - destruct (pages fl1 !! name); cbn [fst snd]; repeat split; auto;
      intros; try discriminate.
Qed.

Lemma nvs_open_readwrite name fl :
  let r := nvs_open name NVS_READWRITE fl in
  (∀ n k, stored n k (snd r) = stored n k fl) ∧
  (fst (fst r) = ESP_OK →
   snd (fst r) = Some {| h_namespace := name; h_mode := NVS_READWRITE |}
   ∧ is_Some (pages (snd r) !! name)) ∧
  (snd (fst r) = None → fst (fst r) ≠ ESP_OK) ∧
  (healthy fl → fst (fst r) = ESP_OK ∧ healthy (snd r)).
Proof.
  cbv zeta. unfold nvs_open.
  pose proof (draw_pages fl) as Hp. pose proof (draw_healthy_ok fl) as Hh.
  destruct (draw fl) as [e fl1]. cbn [snd] in Hp.
  destruct (failed e) eqn:Fe; cbn [fst snd].
  - apply failed_true_iff in Fe.
    split; [|split; [|split]]; intros.
    + now apply stored_pages.
    + congruence.
    + congruence.
    + specialize (Hh H). congruence.
  - assert (Hfl : healthy fl → fl1 = fl) by (intros H; specialize (Hh H); congruence).
    destruct (pages fl1 !! name) as [ns|] eqn:Hns; cbn [fst snd].
    + split; [|split; [|split]]; intros.
      * now apply stored_pages.
      * split; [reflexivity | rewrite Hns; eauto].
      * discriminate.
      * split; [reflexivity | now rewrite (Hfl H)].
    + split; [|split; [|split]]; intros.
      * unfold stored, entry. cbn. rewrite <- Hp.
        destruct (decide (name = n)) as [<-|Hne].
        -- rewrite lookup_insert_eq, Hns. apply lookup_empty.
        -- now rewrite lookup_insert_ne.
      * split; [reflexivity | cbn; rewrite lookup_insert_eq; eauto].
      * discriminate.
      * split; [reflexivity|]. unfold healthy. cbn. rewrite (Hfl H). exact H.
Qed.

Lemma nvs_get_str_spec h key out len fl :
  let r := nvs_get_str h key out len fl in
  pages (snd r) = pages fl ∧
  (fst (fst (fst r)) = ESP_OK →
   ∃ v, entry h key fl = Some v ∧ snd (fst (fst r)) = S (length v)
        ∧ snd (fst r) = (if out then Some v else None)).
Proof.
  cbv zeta. unfold nvs_get_str.
  pose proof (draw_pages fl) as Hp.
  destruct (draw fl) as [e fl1]. cbn [snd] in Hp.
  assert (He : entry h key fl1 = entry h key fl) by (unfold entry; now rewrite Hp).
  destruct (failed e) eqn:Fe; cbn [fst snd].
  - apply failed_true_iff in Fe. split; [exact Hp | congruence].
  - rewrite He. destruct (entry h key fl) as [v|]; cbn [fst snd].
    + destruct out; cbn [negb].
      * destruct (len <? S (length v))%nat; cbn [fst snd]; split; auto;
          intros; try discriminate. eauto.
      * cbn [fst snd]. split; eauto.
    + split; [exact Hp | discriminate].
Qed.

Lemma nvs_set_str_spec name key value fl :
  let h := {| h_namespace := name; h_mode := NVS_READWRITE |} in
  let r := nvs_set_str h key value fl in
  (fst r ≠ ESP_OK → ∀ n k, stored n k (snd r) = stored n k fl) ∧
  (fst r = ESP_OK →
   ∀ n k, stored n k (snd r)
          = if decide (n = name ∧ k = key) then Some (c_str value)
            else stored n k fl) ∧
  (healthy fl → fst r = ESP_OK ∧ healthy (snd r)).
Proof.
  cbv zeta. unfold nvs_set_str.
  pose proof (draw_pages fl) as Hp. pose proof (draw_healthy_ok fl) as Hh.
  destruct (draw fl) as [e fl1]. cbn [snd] in Hp.
  destruct (failed e) eqn:Fe; cbn [fst snd h_mode h_namespace].
  - apply failed_true_iff in Fe. split; [|split]; intros.
    + now apply stored_pages.
    + congruence.
    + specialize (Hh H). congruence.
  - assert (Hfl : healthy fl → fl1 = fl) by (intros H; specialize (Hh H); congruence).
    split; [|split]; intros.
    + congruence.
    + unfold stored, entry. cbn. rewrite <- Hp.
      destruct (decide (n = name ∧ k = key)) as [[-> ->]|Hne].
      * rewrite lookup_insert_eq. apply lookup_insert_eq.
      * destruct (decide (name = n)) as [<-|Hn].
        -- rewrite lookup_insert_eq.
           rewrite lookup_insert_ne by (intros <-; apply Hne; auto).
           destruct (pages fl1 !! name); [reflexivity | apply lookup_empty].
        -- now rewrite lookup_insert_ne.
    + split; [reflexivity|]. unfold healthy. cbn. rewrite (Hfl H). exact H.
Qed.

Lemma nvs_commit_spec h fl :
  pages (snd (nvs_commit h fl)) = pages fl ∧
  (healthy fl → fst (nvs_commit h fl) = ESP_OK ∧ healthy (snd (nvs_commit h fl))).
Proof.
  unfold nvs_commit. split; [apply draw_pages|].
  intros H. rewrite (draw_healthy_ok fl H). auto.
Qed.

Lemma nvs_erase_key_spec name key fl :
  let h := {| h_namespace := name; h_mode := NVS_READWRITE |} in
  let r := nvs_erase_key h key fl in
  (∀ n k, ¬ (n = name ∧ k = key) → stored n k (snd r) = stored n k fl) ∧
  (healthy fl → stored name key (snd r) = None ∧ healthy (snd r)).
Proof.
  cbv zeta. unfold nvs_erase_key.
  pose proof (draw_pages fl) as Hp. pose proof (draw_healthy_ok fl) as Hh.
  destruct (draw fl) as [e fl1]. cbn [snd] in Hp.
  destruct (failed e) eqn:Fe; cbn [fst snd h_mode h_namespace].
  - apply failed_true_iff in Fe. split; intros.
    + now apply stored_pages.
    + specialize (Hh H). congruence.
  - assert (Hfl : healthy fl → fl1 = fl) by (intros H; specialize (Hh H); congruence).
    destruct (pages fl1 !! name) as [ns|] eqn:Hns; cbn [fst snd].
    + destruct (ns !! key) as [v|] eqn:Hk; cbn [fst snd].
      * split; intros.
        -- unfold stored, entry. cbn. rewrite <- Hp.
           destruct (decide (name = n)) as [<-|Hn].
           ++ rewrite lookup_insert_eq, Hns.
              apply lookup_delete_ne. intros <-. apply H. auto.
           ++ now rewrite lookup_insert_ne.
        -- split.
           ++ unfold stored, entry. cbn. rewrite lookup_insert_eq.
              apply lookup_delete_eq.
           ++ rewrite <- (Hfl H) in H. exact H.
      * split; intros.
        -- now apply stored_pages.
        -- split.
           ++ unfold stored, entry. cbn. now rewrite Hns.
           ++ now rewrite (Hfl H).
    + split; intros.
      * now apply stored_pages.
      * split.
        -- unfold stored, entry. cbn. now rewrite Hns.
        -- now rewrite (Hfl H).
Qed.

(** *** [board_wifi_has_valid_config] *)

(** What a positive answer of the query rests on. *)
Lemma query_found_inv want_ssid want_password fl :
  found (fst (board_wifi_has_valid_config want_ssid want_password fl)) = true →
  ∃ s p,
    stored BOARD_WIFI_NVS_NAMESPACE BOARD_WIFI_SSID_KEY fl = Some s ∧
    stored BOARD_WIFI_NVS_NAMESPACE BOARD_WIFI_PASSWORD_KEY fl = Some p ∧
    (length s <= 31)%nat ∧ (length p <= 63)%nat ∧
    ssid_out (fst (board_wifi_has_valid_config want_ssid want_password fl))
    = (if want_ssid then Some s else None) ∧
    password_out (fst (board_wifi_has_valid_config want_ssid want_password fl))
    = (if want_password then Some p else None).
Proof.
  unfold board_wifi_has_valid_config.
  pose proof (nvs_open_readonly BOARD_WIFI_NVS_NAMESPACE fl) as (P0 & O1 & O2).
  destruct (nvs_open BOARD_WIFI_NVS_NAMESPACE NVS_READONLY fl) as [[ret oh] fl0].
  cbn [fst snd] in *.
  destruct oh as [h|]; [|discriminate].
  destruct (failed ret) eqn:F0; [discriminate|].
  apply failed_false_iff in F0. specialize (O1 F0). injection O1 as ->.
  clear O2 F0 ret.
  set (h := {| h_namespace := BOARD_WIFI_NVS_NAMESPACE; h_mode := NVS_READONLY |}) in *.
  (* first size query *)
  pose proof (nvs_get_str_spec h BOARD_WIFI_SSID_KEY false 0%nat fl0) as (P1 & G1).
  destruct (nvs_get_str h BOARD_WIFI_SSID_KEY false 0%nat fl0) as [[[r1 ssid_len] o1] fl1].
  cbn [fst snd] in *.
  destruct (failed r1) eqn:F1; [discriminate|]. cbn [orb].
  apply failed_false_iff in F1. destruct (G1 F1) as (s & Es & Ls & _). clear G1.
  destruct (ssid_len =? 0)%nat; [discriminate|]. cbn [orb].
  destruct (32 <? ssid_len)%nat eqn:B1; [discriminate|]. apply Nat.ltb_ge in B1.
  (* second size query *)
  pose proof (nvs_get_str_spec h BOARD_WIFI_PASSWORD_KEY false 0%nat fl1) as (P2 & G2).
  destruct (nvs_get_str h BOARD_WIFI_PASSWORD_KEY false 0%nat fl1) as [[[r2 pass_len] o2] fl2].
  cbn [fst snd] in *.
  destruct (failed r2) eqn:F2; [discriminate|]. cbn [orb].
  apply failed_false_iff in F2. destruct (G2 F2) as (p & Ep & Lp & _). clear G2.
  destruct (64 <? pass_len)%nat eqn:B2; [discriminate|]. apply Nat.ltb_ge in B2.
  assert (Ss : stored BOARD_WIFI_NVS_NAMESPACE BOARD_WIFI_SSID_KEY fl = Some s).
  { rewrite <- Es. unfold stored, entry. now rewrite P0. }
  assert (Sp : stored BOARD_WIFI_NVS_NAMESPACE BOARD_WIFI_PASSWORD_KEY fl = Some p).
  { rewrite <- Ep. unfold stored, entry. now rewrite P1, P0. }
  (* the copies *)
  assert (C1 : ∃ r3 l3 o3 fl3,
             (if want_ssid
              then nvs_get_str h BOARD_WIFI_SSID_KEY true ssid_len fl2
              else (ESP_OK, ssid_len, None, fl2)) = (r3, l3, o3, fl3)
             ∧ pages fl3 = pages fl2
             ∧ (r3 = ESP_OK → o3 = if want_ssid then Some s else None)).
  { destruct want_ssid.
    - pose proof (nvs_get_str_spec h BOARD_WIFI_SSID_KEY true ssid_len fl2) as (P3 & G3).
      destruct (nvs_get_str h BOARD_WIFI_SSID_KEY true ssid_len fl2) as [[[r3 l3] o3] fl3].
      cbn [fst snd] in *. exists r3, l3, o3, fl3. split; [reflexivity|]. split; [exact P3|].
      intros E. destruct (G3 E) as (v & Ev & _ & ->).
      assert (v = s); [|now subst].
      unfold entry in Ev, Es. rewrite P2, P1 in Ev. congruence.
    - exists ESP_OK, ssid_len, None, fl2. repeat split. }
  destruct C1 as (r3 & l3 & o3 & fl3 & -> & P3 & O3).
  destruct (failed r3) eqn:F3; [discriminate|]. apply failed_false_iff in F3.
  specialize (O3 F3).
  assert (C2 : ∃ r4 l4 o4 fl4,
             (if want_password
              then nvs_get_str h BOARD_WIFI_PASSWORD_KEY true pass_len fl3
              else (ESP_OK, pass_len, None, fl3)) = (r4, l4, o4, fl4)
             ∧ (r4 = ESP_OK → o4 = if want_password then Some p else None)).
  { destruct want_password.
    - pose proof (nvs_get_str_spec h BOARD_WIFI_PASSWORD_KEY true pass_len fl3) as (P4 & G4).
      destruct (nvs_get_str h BOARD_WIFI_PASSWORD_KEY true pass_len fl3) as [[[r4 l4] o4] fl4].
      cbn [fst snd] in *. exists r4, l4, o4, fl4. split; [reflexivity|].
      intros E. destruct (G4 E) as (v & Ev & _ & ->).
      assert (v = p); [|now subst].
      unfold entry in Ev, Ep. rewrite P3, P2 in Ev. congruence.
    - exists ESP_OK, pass_len, None, fl3. repeat split. }
  destruct C2 as (r4 & l4 & o4 & fl4 & -> & O4).
  destruct (failed r4) eqn:F4; [discriminate|]. apply failed_false_iff in F4.
  specialize (O4 F4). cbn [fst found ssid_out password_out].
  intros _. exists s, p. subst o3 o4. repeat split; auto; lia.
Qed.

Ltac get_str_pages :=
  match goal with
  | |- context [nvs_get_str ?h ?k ?o ?n ?f] =>
      let P := fresh "P" in
      pose proof (nvs_get_str_spec h k o n f) as [P _];
      destruct (nvs_get_str h k o n f) as [[[? ?] ?] ?]; cbn [fst snd] in *
  end.

(** X1.  The query never writes: whatever the flash holds and whichever
    calls fail, the stored namespaces and keys are the same after
    [board_wifi_has_valid_config] as before. *)
Theorem query_never_writes (want_ssid want_password : bool) (fl : flash) :
  pages (snd (board_wifi_has_valid_config want_ssid want_password fl)) = pages fl.
Proof.
  unfold board_wifi_has_valid_config.
  pose proof (nvs_open_readonly BOARD_WIFI_NVS_NAMESPACE fl) as (P0 & _).
  destruct (nvs_open BOARD_WIFI_NVS_NAMESPACE NVS_READONLY fl) as [[ret oh] fl0].
  cbn [fst snd] in *.
  destruct oh as [h|]; [|exact P0].
  destruct (failed ret); [exact P0|].
  get_str_pages.
  match goal with |- context [if ?c then _ else _] => destruct c end;
    [cbn [snd]; congruence|].
  get_str_pages.
  match goal with |- context [if ?c then _ else _] => destruct c end;
    [cbn [snd]; congruence|].
  destruct want_ssid, want_password; repeat get_str_pages;
    repeat (match goal with |- context [if failed ?c then _ else _] => destruct (failed c) end);
    cbn [snd]; congruence.
Qed.

(** X2.  A positive answer is backed by the store: when the query
    returns true with both buffers given, the two strings copied out are
    the values stored under the keys ssid and password of the namespace,
    and they are at most 31 and 63 bytes long. *)
Theorem query_yields_stored_credentials (fl : flash) :
  found (fst (board_wifi_has_valid_config true true fl)) = true →
  let q := fst (board_wifi_has_valid_config true true fl) in
  ssid_out q = stored BOARD_WIFI_NVS_NAMESPACE BOARD_WIFI_SSID_KEY fl ∧
  password_out q = stored BOARD_WIFI_NVS_NAMESPACE BOARD_WIFI_PASSWORD_KEY fl ∧
  (∃ s p, ssid_out q = Some s ∧ password_out q = Some p
          ∧ (length s <= 31)%nat ∧ (length p <= 63)%nat).
Proof.
  intros H. cbv zeta.
  destruct (query_found_inv true true fl H) as (s & p & Ss & Sp & Ls & Lp & Os & Op).
  rewrite Os, Op, Ss, Sp. repeat split. exists s, p. auto.
Qed.

Lemma query_yields_stored_credentials_witness :
  let fl := nvs (snd (board_wifi_save_config (Some (lit "MyNet")) (Some (lit "secret1"))
                        fresh_board)) in
  found (fst (board_wifi_has_valid_config true true fl)) = true ∧
  ssid_out (fst (board_wifi_has_valid_config true true fl))
  = stored BOARD_WIFI_NVS_NAMESPACE BOARD_WIFI_SSID_KEY fl.
Proof.
  cbv zeta. split; [vm_compute; reflexivity|].
  apply (query_yields_stored_credentials
           (nvs (snd (board_wifi_save_config (Some (lit "MyNet")) (Some (lit "secret1"))
                        fresh_board)))).
  vm_compute. reflexivity.
Defined.

(** X3.  Both keys are needed: when the key ssid or the key password is
    missing from the namespace, the query returns false, whatever else the
    flash holds. *)
Theorem query_needs_both_keys (want_ssid want_password : bool) (fl : flash) :
  stored BOARD_WIFI_NVS_NAMESPACE BOARD_WIFI_SSID_KEY fl = None
  ∨ stored BOARD_WIFI_NVS_NAMESPACE BOARD_WIFI_PASSWORD_KEY fl = None →
  found (fst (board_wifi_has_valid_config want_ssid want_password fl)) = false.
Proof.
  intros H.
  destruct (found (fst (board_wifi_has_valid_config want_ssid want_password fl))) eqn:F;
    [|reflexivity].
  destruct (query_found_inv _ _ _ F) as (s & p & Ss & Sp & _).
  destruct H; congruence.
Qed.

Lemma query_needs_both_keys_witness :
  let fl := {| pages := {[ BOARD_WIFI_NVS_NAMESPACE := {[ BOARD_WIFI_SSID_KEY := lit "MyNet" ]} ]};
               faults := [] |} in
  stored BOARD_WIFI_NVS_NAMESPACE BOARD_WIFI_PASSWORD_KEY fl = None ∧
  found (fst (board_wifi_has_valid_config true true fl)) = false.
Proof.
  cbv zeta. split; [vm_compute; reflexivity|].
  apply query_needs_both_keys. right. vm_compute. reflexivity.
Defined.

(** *** [board_wifi_save_config] *)

Lemma save_inv ssid password st ret st' :
  board_wifi_save_config (Some ssid) (Some password) st = (ret, st') →
  (ret = ESP_OK →
   (1 <= strlen ssid <= 32)%nat ∧ (strlen password <= 64)%nat ∧
   stored BOARD_WIFI_NVS_NAMESPACE BOARD_WIFI_SSID_KEY (nvs st') = Some (c_str ssid) ∧
   stored BOARD_WIFI_NVS_NAMESPACE BOARD_WIFI_PASSWORD_KEY (nvs st') = Some (c_str password) ∧
   board_event_group st'
   = xEventGroupSetBits (board_event_group st) WIFI_CONFIG_SAVED_BIT) ∧
  (ret ≠ ESP_OK → board_event_group st' = board_event_group st) ∧
  (∀ n k, ¬ (n = BOARD_WIFI_NVS_NAMESPACE
             ∧ (k = BOARD_WIFI_SSID_KEY ∨ k = BOARD_WIFI_PASSWORD_KEY)) →
          stored n k (nvs st') = stored n k (nvs st)).
Proof.
  unfold board_wifi_save_config.
  destruct (strlen ssid =? 0)%nat eqn:E0; cbn [orb].
  { intros [= <- <-]. repeat split; auto; discriminate. }
  destruct (32 <? strlen ssid)%nat eqn:E1.
  { intros [= <- <-]. repeat split; auto; discriminate. }
  destruct (64 <? strlen password)%nat eqn:E2.
  { intros [= <- <-]. repeat split; auto; discriminate. }
  apply Nat.eqb_neq in E0. apply Nat.ltb_ge in E1, E2.
  pose proof (nvs_open_readwrite BOARD_WIFI_NVS_NAMESPACE (nvs st)) as (O1 & O2 & O3 & _).
  destruct (nvs_open BOARD_WIFI_NVS_NAMESPACE NVS_READWRITE (nvs st)) as [[r0 oh] fl0].
  cbn [fst snd] in *.
  destruct oh as [h|].
  2:{ intros [= <- <-]. specialize (O3 eq_refl). repeat split; auto; congruence. }
  destruct (failed r0) eqn:F0.
  { apply failed_true_iff in F0. intros [= <- <-]. repeat split; auto; congruence. }
  apply failed_false_iff in F0. destruct (O2 F0) as [[= ->] _]. clear O2 O3.
  pose proof (nvs_set_str_spec BOARD_WIFI_NVS_NAMESPACE BOARD_WIFI_SSID_KEY ssid fl0)
    as (S1n & S1y & _).
  cbv zeta in S1n, S1y.
  destruct (nvs_set_str _ BOARD_WIFI_SSID_KEY ssid fl0) as [r1 fl1]. cbn [fst snd] in *.
  destruct (failed r1) eqn:F1.
  { apply failed_true_iff in F1. intros [= <- <-]. cbn [nvs board_event_group].
    repeat split; auto; try congruence.
    intros n k Hnk. rewrite (S1n F1). apply O1. }
  apply failed_false_iff in F1. specialize (S1y F1). clear S1n.
  pose proof (nvs_set_str_spec BOARD_WIFI_NVS_NAMESPACE BOARD_WIFI_PASSWORD_KEY password fl1)
    as (S2n & S2y & _).
  cbv zeta in S2n, S2y.
  destruct (nvs_set_str _ BOARD_WIFI_PASSWORD_KEY password fl1) as [r2 fl2]. cbn [fst snd] in *.
  assert (Other1 : ∀ n k, ¬ (n = BOARD_WIFI_NVS_NAMESPACE
             ∧ (k = BOARD_WIFI_SSID_KEY ∨ k = BOARD_WIFI_PASSWORD_KEY)) →
          stored n k fl1 = stored n k (nvs st)).
  { intros n k Hnk. rewrite S1y, decide_False by (intros [-> ->]; apply Hnk; auto).
    apply O1. }
  destruct (failed r2) eqn:F2.
  { apply failed_true_iff in F2. intros [= <- <-]. cbn [nvs board_event_group].
    repeat split; auto; try congruence.
    intros n k Hnk. rewrite (S2n F2). now apply Other1. }
  apply failed_false_iff in F2. specialize (S2y F2). clear S2n.
  pose proof (nvs_commit_spec {| h_namespace := BOARD_WIFI_NVS_NAMESPACE;
                                 h_mode := NVS_READWRITE |} fl2) as (P3 & _).
  destruct (nvs_commit _ fl2) as [r3 fl3]. cbn [fst snd] in *.
  assert (Other2 : ∀ n k, ¬ (n = BOARD_WIFI_NVS_NAMESPACE
             ∧ (k = BOARD_WIFI_SSID_KEY ∨ k = BOARD_WIFI_PASSWORD_KEY)) →
          stored n k fl3 = stored n k (nvs st)).
  { intros n k Hnk. rewrite (stored_pages _ _ _ _ P3).
    rewrite S2y, decide_False by (intros [-> ->]; apply Hnk; auto).
    now apply Other1. }
  destruct (failed r3) eqn:F3.
  { apply failed_true_iff in F3. intros [= <- <-]. cbn [nvs board_event_group].
    repeat split; auto; congruence. }
  intros [= <- <-]. cbn [nvs board_event_group].
  split; [intros _ | split; [congruence | exact Other2]].
  repeat split; try lia.
  - rewrite (stored_pages _ _ _ _ P3), S2y.
    rewrite decide_False by (intros [_ ?]; discriminate).
    rewrite S1y. now rewrite decide_True.
  - rewrite (stored_pages _ _ _ _ P3), S2y. now rewrite decide_True.
Qed.

Lemma save_on_healthy_flash ssid password st :
  healthy (nvs st) →
  (1 <= strlen ssid <= 32)%nat → (strlen password <= 64)%nat →
  fst (board_wifi_save_config (Some ssid) (Some password) st) = ESP_OK ∧
  healthy (nvs (snd (board_wifi_save_config (Some ssid) (Some password) st))).
Proof.
  intros H Hs Hp. unfold board_wifi_save_config.
  replace (strlen ssid =? 0)%nat with false by (symmetry; apply Nat.eqb_neq; lia).
  replace (32 <? strlen ssid)%nat with false by (symmetry; apply Nat.ltb_ge; lia).
  replace (64 <? strlen password)%nat with false by (symmetry; apply Nat.ltb_ge; lia).
  cbn [orb].
  pose proof (nvs_open_readwrite BOARD_WIFI_NVS_NAMESPACE (nvs st)) as (_ & O2 & _ & O4).
  destruct (nvs_open BOARD_WIFI_NVS_NAMESPACE NVS_READWRITE (nvs st)) as [[r0 oh] fl0].
  cbn [fst snd] in *. destruct (O4 H) as [-> H0]. destruct (O2 eq_refl) as [-> _].
  cbn [failed Z.eqb ESP_OK negb].
  pose proof (nvs_set_str_spec BOARD_WIFI_NVS_NAMESPACE BOARD_WIFI_SSID_KEY ssid fl0)
    as (_ & _ & S1).
  cbv zeta in S1.
  destruct (nvs_set_str _ BOARD_WIFI_SSID_KEY ssid fl0) as [r1 fl1]. cbn [fst snd] in *.
  destruct (S1 H0) as [-> H1]. cbn [failed Z.eqb ESP_OK negb].
  pose proof (nvs_set_str_spec BOARD_WIFI_NVS_NAMESPACE BOARD_WIFI_PASSWORD_KEY password fl1)
    as (_ & _ & S2).
  cbv zeta in S2.
  destruct (nvs_set_str _ BOARD_WIFI_PASSWORD_KEY password fl1) as [r2 fl2]. cbn [fst snd] in *.
  destruct (S2 H1) as [-> H2]. cbn [failed Z.eqb ESP_OK negb].
  pose proof (nvs_commit_spec {| h_namespace := BOARD_WIFI_NVS_NAMESPACE;
                                 h_mode := NVS_READWRITE |} fl2) as (_ & C).
  destruct (nvs_commit _ fl2) as [r3 fl3]. cbn [fst snd] in *.
  destruct (C H2) as [-> H3]. cbn [failed Z.eqb ESP_OK negb fst snd nvs].
  auto.
Qed.

(** X4.  What a save leaves behind, whichever NVS call fails.  When
    [board_wifi_save_config] returns [ESP_OK], both strings are stored
    under their keys and the config-saved bit is raised; when it returns
    anything else, the event bits are as before; in both cases no other
    key of the flash is touched. *)
Theorem save_effects (ssid password : list byte) (st st' : board) (ret : Z) :
  board_wifi_save_config (Some ssid) (Some password) st = (ret, st') →
  (ret = ESP_OK →
   stored BOARD_WIFI_NVS_NAMESPACE BOARD_WIFI_SSID_KEY (nvs st') = Some (c_str ssid) ∧
   stored BOARD_WIFI_NVS_NAMESPACE BOARD_WIFI_PASSWORD_KEY (nvs st') = Some (c_str password) ∧
   bit_set (board_event_group st') WIFI_CONFIG_SAVED_BIT = true) ∧
  (ret ≠ ESP_OK → board_event_group st' = board_event_group st) ∧
  (∀ n k, ¬ (n = BOARD_WIFI_NVS_NAMESPACE
             ∧ (k = BOARD_WIFI_SSID_KEY ∨ k = BOARD_WIFI_PASSWORD_KEY)) →
          stored n k (nvs st') = stored n k (nvs st)).
Proof.
  intros H. destruct (save_inv _ _ _ _ _ H) as (Ok & Ko & Other).
  split; [|split; assumption].
  intros E. destruct (Ok E) as (_ & _ & Ss & Sp & G). repeat split; auto.
  rewrite G. unfold bit_set, xEventGroupSetBits.
  rewrite Z.land_lor_distr_l. apply negb_true_iff, Z.eqb_neq. intros Z0.
  apply Z.lor_eq_0_iff in Z0 as [_ Z0]. vm_compute in Z0. discriminate.
Qed.

Lemma save_effects_witness :
  board_wifi_save_config (Some (lit "MyNet")) (Some (lit "secret1")) fresh_board
  = (ESP_OK, snd (board_wifi_save_config (Some (lit "MyNet")) (Some (lit "secret1")) fresh_board))
  ∧ stored BOARD_WIFI_NVS_NAMESPACE BOARD_WIFI_SSID_KEY
      (nvs (snd (board_wifi_save_config (Some (lit "MyNet")) (Some (lit "secret1")) fresh_board)))
    = Some (c_str (lit "MyNet")).
Proof.
  split; [vm_compute; reflexivity|].
  apply (save_effects (lit "MyNet") (lit "secret1") fresh_board _ ESP_OK);
    [vm_compute; reflexivity | reflexivity].
Defined.

(** X5.  On a healthy flash the save succeeds exactly for the valid
    lengths: it returns [ESP_OK] if and only if the name has 1 to 32 bytes
    and the secret at most 64. *)
Theorem save_ok_iff_valid_on_healthy_flash (ssid password : list byte) (st : board) :
  healthy (nvs st) →
  fst (board_wifi_save_config (Some ssid) (Some password) st) = ESP_OK
  ↔ (1 <= strlen ssid <= 32)%nat ∧ (strlen password <= 64)%nat.
Proof.
  intros H. split.
  - intros E.
    destruct (board_wifi_save_config (Some ssid) (Some password) st) as [ret st'] eqn:S.
    cbn [fst] in E. destruct (save_inv _ _ _ _ _ S) as (Ok & _).
    destruct (Ok E) as (L1 & L2 & _). auto.
  - intros [Hs Hp]. now apply save_on_healthy_flash.
Qed.

Lemma save_ok_iff_valid_on_healthy_flash_witness :
  healthy (nvs fresh_board) ∧
  (fst (board_wifi_save_config (Some (repeat x61 32)) (Some []) fresh_board) = ESP_OK
   ↔ (1 <= strlen (repeat x61 32) <= 32)%nat ∧ (strlen [] <= 64)%nat).
Proof.
  split; [reflexivity|].
  apply (save_ok_iff_valid_on_healthy_flash (repeat x61 32) [] fresh_board). reflexivity.
Defined.

End StoreFacts.

(** ** Factory reset *)

Module ResetFacts.
Import Esp Nvs Creds CStr Reset StoreFacts.

(** What the task does to the flash, key by key. *)
Lemma reset_flash st :
  (∀ n k, ¬ (n = BOARD_WIFI_NVS_NAMESPACE
             ∧ (k = BOARD_WIFI_SSID_KEY ∨ k = BOARD_WIFI_PASSWORD_KEY)) →
          stored n k (nvs (board_factory_reset_task st)) = stored n k (nvs st)) ∧
  (healthy (nvs st) →
   stored BOARD_WIFI_NVS_NAMESPACE BOARD_WIFI_SSID_KEY
     (nvs (board_factory_reset_task st)) = None ∧
   stored BOARD_WIFI_NVS_NAMESPACE BOARD_WIFI_PASSWORD_KEY
     (nvs (board_factory_reset_task st)) = None).
Proof.
  unfold board_factory_reset_task.
  pose proof (nvs_open_readwrite BOARD_WIFI_NVS_NAMESPACE (nvs st)) as (O1 & O2 & O3 & O4).
  destruct (nvs_open BOARD_WIFI_NVS_NAMESPACE NVS_READWRITE (nvs st)) as [[r0 oh] fl0].
  cbn [fst snd nvs] in *.
  destruct oh as [h|].
  2:{ split; [intros; apply O1|]. intros H. destruct (O4 H) as [E _].
      now specialize (O3 eq_refl). }
  destruct (r0 =? ESP_OK) eqn:E0.
  2:{ split; [intros; apply O1|]. intros H. destruct (O4 H) as [E _].
      apply Z.eqb_neq in E0. contradiction. }
  apply Z.eqb_eq in E0. destruct (O2 E0) as [[= ->] _].
  pose proof (nvs_erase_key_spec BOARD_WIFI_NVS_NAMESPACE BOARD_WIFI_SSID_KEY fl0)
    as (E1o & E1h).
  cbv zeta in E1o, E1h.
  destruct (nvs_erase_key _ BOARD_WIFI_SSID_KEY fl0) as [r1 fl1]. cbn [fst snd] in *.
  pose proof (nvs_erase_key_spec BOARD_WIFI_NVS_NAMESPACE BOARD_WIFI_PASSWORD_KEY fl1)
    as (E2o & E2h).
  cbv zeta in E2o, E2h.
  destruct (nvs_erase_key _ BOARD_WIFI_PASSWORD_KEY fl1) as [r2 fl2]. cbn [fst snd] in *.
  pose proof (nvs_commit_spec {| h_namespace := BOARD_WIFI_NVS_NAMESPACE;
                                 h_mode := NVS_READWRITE |} fl2) as (P3 & _).
  destruct (nvs_commit _ fl2) as [r3 fl3]. cbn [fst snd] in *.
  split.
  - intros n k Hnk. rewrite (stored_pages _ _ _ _ P3).
    rewrite E2o by (intros [-> ->]; apply Hnk; auto).
    rewrite E1o by (intros [-> ->]; apply Hnk; auto).
    apply O1.
  - intros H. destruct (O4 H) as [_ H0]. destruct (E1h H0) as [N1 H1].
    destruct (E2h H1) as [N2 _]. split.
    + rewrite (stored_pages _ _ _ _ P3).
      rewrite E2o by (intros [_ ?]; discriminate). exact N1.
    + rewrite (stored_pages _ _ _ _ P3). exact N2.
Qed.

(** X6.  After a factory reset on a healthy flash the device has no
    credentials: whatever was stored before, the query that follows
    returns false. *)
Theorem factory_reset_forgets_credentials (want_ssid want_password : bool) (st : board) :
  healthy (nvs st) →
  found (fst (board_wifi_has_valid_config want_ssid want_password
                (nvs (board_factory_reset_task st)))) = false.
Proof.
  intros H. destruct (reset_flash st) as [_ R]. destruct (R H) as [N _].
  destruct (found _) eqn:F; [|reflexivity].
  destruct (query_found_inv _ _ _ F) as (s & p & Ss & _). congruence.
Qed.

Lemma factory_reset_forgets_credentials_witness :
  let st := snd (board_wifi_save_config (Some (lit "MyNet")) (Some (lit "secret1"))
                   fresh_board) in
  healthy (nvs st) ∧
  found (fst (board_wifi_has_valid_config true true (nvs st))) = true ∧
  found (fst (board_wifi_has_valid_config true true
                (nvs (board_factory_reset_task st)))) = false.
Proof.
  cbv zeta. split; [vm_compute; reflexivity|]. split; [vm_compute; reflexivity|].
  apply factory_reset_forgets_credentials. vm_compute. reflexivity.
Defined.

(** X7.  The factory reset clears every event bit from 0 to 7, among them
    the six the firmware defines, whatever the group held. *)
Theorem factory_reset_clears_event_bits (st : board) (k : Z) :
  0 <= k < 8 →
  bit_set (board_event_group (board_factory_reset_task st)) (BIT k) = false.
Proof.
  intros Hk.
  assert (G : board_event_group (board_factory_reset_task st)
              = xEventGroupClearBits (board_event_group st) 0xFF).
  { unfold board_factory_reset_task.
    destruct (nvs_open _ _ _) as [[r0 oh] fl0]. reflexivity. }
  rewrite G. unfold bit_set, xEventGroupClearBits, BIT.
  rewrite <- Z.land_assoc.
  assert (Z0 : Z.land (Z.lnot 255) (Z.shiftl 1 k) = 0).
  { assert (C : k = 0 ∨ k = 1 ∨ k = 2 ∨ k = 3 ∨ k = 4 ∨ k = 5 ∨ k = 6 ∨ k = 7) by lia.
    destruct C as [-> | [-> | [-> | [-> | [-> | [-> | [-> | ->]]]]]]]; reflexivity. }
  rewrite Z0, Z.land_0_r. reflexivity.
Qed.

Lemma factory_reset_clears_event_bits_witness :
  0 <= 2 < 8 ∧
  bit_set (board_event_group
             (board_factory_reset_task {| nvs := nvs fresh_board; board_event_group := 0x3F |}))
          WIFI_CONFIG_SAVED_BIT = false.
Proof.
  split; [lia|].
  apply (factory_reset_clears_event_bits
           {| nvs := nvs fresh_board; board_event_group := 0x3F |} 2). lia.
Defined.

(** X8.  The factory reset removes nothing but the two credential keys:
    every other key of the namespace and every key of any other namespace
    holds what it held, whichever NVS calls fail. *)
Theorem factory_reset_keeps_other_entries (st : board) (name key : string) :
  ¬ (name = BOARD_WIFI_NVS_NAMESPACE
     ∧ (key = BOARD_WIFI_SSID_KEY ∨ key = BOARD_WIFI_PASSWORD_KEY)) →
  stored name key (nvs (board_factory_reset_task st)) = stored name key (nvs st).
Proof.
  intros H. destruct (reset_flash st) as [O _]. now apply O.
Qed.

Lemma factory_reset_keeps_other_entries_witness :
  let st := {| nvs := {| pages := {[ BOARD_WIFI_NVS_NAMESPACE :=
                                       {[ BOARD_WIFI_SSID_KEY := lit "MyNet";
                                          "volume" := lit "70" ]} ]};
                         faults := [] |};
               board_event_group := 0 |} in
  stored BOARD_WIFI_NVS_NAMESPACE "volume" (nvs (board_factory_reset_task st))
  = Some (lit "70").
Proof.
  cbv zeta.
  rewrite factory_reset_keeps_other_entries; [vm_compute; reflexivity|].
  intros [_ [E|E]]; discriminate.
Defined.

End ResetFacts.

(** ** Station connection manager over arbitrary event sequences *)

Module StaInvariants.
Import Esp Sta StaView StaFacts.

Lemma backoff_ms_range k :
  0 <= k < BOARD_WIFI_MAX_RETRY → 500 <= backoff_ms k <= 8000.
Proof.
  unfold BOARD_WIFI_MAX_RETRY. intros H.
  assert (C : k = 0 ∨ k = 1 ∨ k = 2 ∨ k = 3 ∨ k = 4) by lia.
  destruct C as [-> | [-> | [-> | [-> | ->]]]]; vm_compute; split; discriminate.
Qed.

Lemma handler_keeps_range ev st :
  0 <= s_wifi_retry_num st <= BOARD_WIFI_MAX_RETRY →
  Forall delay_in_range (actions st) →
  0 <= s_wifi_retry_num (wifi_sta_event_handler ev st) <= BOARD_WIFI_MAX_RETRY
  ∧ Forall delay_in_range (actions (wifi_sta_event_handler ev st)).
Proof.
  intros Hr Ha. destruct ev as [| |reason| |].
  - cbn. split; [unfold BOARD_WIFI_MAX_RETRY; lia|].
    apply Forall_app. split; [exact Ha | repeat constructor].
  - cbn. auto.
  - destruct (Z.eq_dec (s_wifi_retry_num st) BOARD_WIFI_MAX_RETRY) as [E|N].
    + rewrite disconnect_at_max by exact E. cbn. split; [lia | exact Ha].
    + rewrite disconnect_below_max by lia. cbn. split; [lia|].
      apply Forall_app. split; [exact Ha|].
      constructor; [apply backoff_ms_range; lia | repeat constructor].
  - cbn. split; [unfold BOARD_WIFI_MAX_RETRY; lia | exact Ha].
  - cbn. auto.
Qed.

(** X9.  Whatever sequence of station events arrives after initialisation,
    the retry counter stays between 0 and [BOARD_WIFI_MAX_RETRY] and every
    delay the handler has inserted lies between 500 and 8000 ms. *)
Theorem retry_counter_and_delays_bounded (evs : list sta_event) :
  0 <= s_wifi_retry_num (deliver evs after_init) <= BOARD_WIFI_MAX_RETRY ∧
  Forall delay_in_range (actions (deliver evs after_init)).
Proof.
  assert (G : ∀ evs st,
             0 <= s_wifi_retry_num st <= BOARD_WIFI_MAX_RETRY →
             Forall delay_in_range (actions st) →
             0 <= s_wifi_retry_num (deliver evs st) <= BOARD_WIFI_MAX_RETRY
             ∧ Forall delay_in_range (actions (deliver evs st))).
  { clear evs. induction evs as [|ev evs IH]; intros st Hr Ha; [auto|].
    rewrite deliver_cons.
    destruct (handler_keeps_range ev st Hr Ha) as [Hr' Ha']. now apply IH. }
  apply G; [cbn; unfold BOARD_WIFI_MAX_RETRY; lia | constructor].
Qed.

Lemma bit_stays_set g extra bit :
  bit_set g bit = true → bit_set (xEventGroupSetBits g extra) bit = true.
Proof.
  unfold bit_set, xEventGroupSetBits. rewrite !negb_true_iff, !Z.eqb_neq.
  intros H Z0. rewrite Z.land_lor_distr_l in Z0.
  apply Z.lor_eq_0_iff in Z0 as [Z0 _]. contradiction.
Qed.

Lemma connected_bit_sets_itself g :
  bit_set (xEventGroupSetBits g WIFI_CONNECTED_BIT) WIFI_CONNECTED_BIT = true.
Proof.
  unfold bit_set, xEventGroupSetBits.
  rewrite Z.land_lor_distr_l.
  apply negb_true_iff, Z.eqb_neq. intros H.
  apply Z.lor_eq_0_iff in H as [_ H]. vm_compute in H. discriminate.
Qed.

Lemma handler_keeps_connected ev st :
  group_connected st → group_connected (wifi_sta_event_handler ev st).
Proof.
  intros (g & Hg & Hb). destruct ev as [| |reason| |]; cbn.
  - exists g. auto.
  - exists g. auto.
  - destruct (s_wifi_retry_num st <? BOARD_WIFI_MAX_RETRY); cbn.
    + exists g. auto.
    + rewrite Hg. cbn. eexists. split; [reflexivity|]. now apply bit_stays_set.
  - rewrite Hg. cbn. eexists. split; [reflexivity|]. now apply bit_stays_set.
  - exists g. auto.
Qed.

Lemma deliver_keeps_group evs : ∀ st,
  is_Some (s_wifi_event_group st) → is_Some (s_wifi_event_group (deliver evs st)).
Proof.
  induction evs as [|ev evs IH]; intros st H; [exact H|].
  rewrite deliver_cons. apply IH.
  destruct H as [g Hg]. destruct ev as [| |reason| |]; cbn; rewrite ?Hg; eauto.
  destruct (s_wifi_retry_num st <? BOARD_WIFI_MAX_RETRY); cbn; rewrite ?Hg; eauto.
Qed.

(** X10.  The connected bit is never cleared.  Once an
    [IP_EVENT_STA_GOT_IP] has been delivered, [board_wifi_sta_wait_connected]
    returns [ESP_OK] after any further events, a later loss of the link
    with all retries failed included. *)
Theorem wait_connected_stays_ok_after_got_ip (before after : list sta_event) :
  board_wifi_sta_wait_connected
    (deliver (before ++ IP_EVENT_STA_GOT_IP :: after) after_init) = ESP_OK.
Proof.
  rewrite deliver_app, deliver_cons.
  assert (C : group_connected
                (wifi_sta_event_handler IP_EVENT_STA_GOT_IP (deliver before after_init))).
  { destruct (deliver_keeps_group before after_init) as [g Hg]; [cbn; eauto|].
    exists (xEventGroupSetBits g WIFI_CONNECTED_BIT). cbn. rewrite Hg. cbn.
    split; [reflexivity | apply connected_bit_sets_itself]. }
  assert (G : ∀ evs st, group_connected st → group_connected (deliver evs st)).
  { induction evs as [|ev evs IH]; intros st H; [exact H|].
    rewrite deliver_cons. apply IH. now apply handler_keeps_connected. }
  destruct (G after _ C) as (g & Hg & Hb).
  unfold board_wifi_sta_wait_connected. now rewrite Hg, Hb.
Qed.

End StaInvariants.

(** ** Session manager over arbitrary event sequences *)

Module SessionInvariants.
Import Esp Session SessionView SessionFacts.

Lemma timer_service_effects now s :
  effects (timer_service now s) = effects s.
Proof.
  unfold timer_service. destruct (reset_timer s) as [[|expiry]|]; try reflexivity.
  destruct (expiry <=? now); reflexivity.
Qed.

Lemma deliver_counts s tev :
  identity_messages (deliver s tev)
  = (identity_messages s + (if is_connected_event tev then 1 else 0))%nat
  ∧ (announcements s <= announcements (deliver s tev)
     <= announcements s + (if is_connected_event tev then 1 else 0))%nat.
Proof.
  destruct tev as [t ev]. unfold deliver, is_connected_event. cbn [fst snd].
  pose proof (timer_service_effects t s) as E.
  unfold identity_messages, announcements.
  destruct ev; cbn [websocket_event_handler effects]; rewrite E.
  - rewrite !List.filter_app, !length_app.
    destruct (first_connection (timer_service t s)); cbn; lia.
  - lia.
Qed.

(** X11.  Over any sequence of session events after boot, every
    Connected event sends exactly one device-identity message, and the
    connection sound is played at most once per Connected event. *)
Theorem one_identity_message_per_connect (evs : list (Z * ws_event)) :
  identity_messages (run evs boot) = length (List.filter is_connected_event evs) ∧
  (announcements (run evs boot) <= length (List.filter is_connected_event evs))%nat.
Proof.
  assert (G : ∀ evs s,
             identity_messages (run evs s)
             = (identity_messages s + length (List.filter is_connected_event evs))%nat
             ∧ (announcements (run evs s)
                <= announcements s + length (List.filter is_connected_event evs))%nat).
  { clear evs. induction evs as [|tev evs IH]; intros s.
    - cbn. lia.
    - change (run (tev :: evs) s) with (run evs (deliver s tev)).
      destruct (IH (deliver s tev)) as [I1 I2].
      destruct (deliver_counts s tev) as [D1 D2].
      cbn [List.filter]. destruct (is_connected_event tev); cbn [length]; lia. }
  destruct (G evs boot) as [G1 G2]. split; [exact G1 | exact G2].
Qed.

End SessionInvariants.

(** ** DNS responder on arbitrary datagrams *)

Module DnsInvariants.
Import Dns DnsView DnsFacts.



Lemma reply_header (a b : byte) (tail : list byte) x y :
  take 12 (<[1%nat := y]> (<[0%nat := x]> (a :: b :: tail)))
  = x :: y :: take 10 tail.
Proof. reflexivity. Qed.

(** The answer to one datagram, written out. *)
Lemma dns_respond_unfold ip r :
  dns_respond ip r
  = if fst (recvfrom r) <? 12 then None
    else
      let qe := question_end (snd (recvfrom r)) (fst (recvfrom r)) in
      if (qe <=? fst (recvfrom r)) && (qe <=? 64)
      then Some ([nth 0 (snd (recvfrom r)) x00; nth 1 (snd (recvfrom r)) x00;
                  x81; x80; x00; x01; x00; x01; x00; x00; x00; x00]
                 ++ question_bytes (snd (recvfrom r)) qe ++ answer_record ip)
      else None.
Proof.
  unfold dns_respond, dns_iteration.
  destruct (recvfrom r) as [len rx]. cbn [fst snd].
  destruct (len <? 12); [reflexivity|].
  cbv zeta.
  generalize (question_end rx len). intros qe.
  destruct ((qe <=? len) && (qe <=? 64)); reflexivity.
Qed.



Lemma dns_iteration_stateless ip dns_reply r :
  header_intact dns_reply →
  replies (fst (fst (dns_iteration ip dns_reply r)))
  = match dns_respond ip r with Some pkt => [pkt] | None => [] end
  ∧ header_intact (snd (fst (dns_iteration ip dns_reply r))).
Proof.
  intros [Hd Hl].
  destruct dns_reply as [|a [|b tail]]; cbn [length] in Hl; try lia.
  change (drop 2 (a :: b :: tail)) with tail in Hd.
  rewrite dns_respond_unfold. unfold dns_iteration.
  destruct (recvfrom r) as [len rx]. cbn [fst snd].
  destruct (len <? 12).
  - cbn [fst snd]. split; [reflexivity|]. split; [exact Hd | cbn [length]; lia].
  - cbv zeta. generalize (question_end rx len). intros qe.
    rewrite reply_header, Hd.
    change (take 10 (drop 2 dns_reply_init))
      with [x81; x80; x00; x01; x00; x01; x00; x00; x00; x00].
    assert (I : header_intact
                  (<[1%nat := nth 1 rx x00]> (<[0%nat := nth 0 rx x00]>
                     (a :: b :: drop 2 dns_reply_init)))).
    { split; [reflexivity|]. rewrite !length_insert. cbn [length]. lia. }
    destruct ((qe <=? len) && (qe <=? 64)); cbn [fst snd];
      (split; [reflexivity | exact I]).
Qed.

(** X13.  The responder keeps no state between datagrams: against any
    sequence of receive results, the packets sent by the loop are, in
    order, the answers to the individual datagrams, at most one each. *)
Theorem dns_loop_answers_each_datagram (ip : esp_ip4_addr_t) (inputs : list recv_result) :
  replies (fst (dns_server_loop ip dns_reply_init inputs))
  = omap (dns_respond ip) inputs.
Proof.
  assert (G : ∀ inputs dns_reply, header_intact dns_reply →
             replies (fst (dns_server_loop ip dns_reply inputs))
             = omap (dns_respond ip) inputs).
  { clear inputs. induction inputs as [|r rest IH]; intros dns_reply H; [reflexivity|].
    cbn [dns_server_loop].
    destruct (dns_iteration_stateless ip dns_reply r H) as [R I].
    pose proof (dns_iteration_loops_again ip dns_reply r) as L.
    destruct (dns_iteration ip dns_reply r) as [[calls dr] ctl]. cbn [fst snd] in *.
    subst ctl. specialize (IH dr I).
    destruct (dns_server_loop ip dr rest) as [more final]. cbn [fst] in *.
    unfold replies in *. rewrite omap_app, R, IH. cbn [omap list_omap].
    destruct (dns_respond ip r); reflexivity. }
  apply G. split; [reflexivity | cbn; lia].
Qed.

End DnsInvariants.

(** ** C string functions *)

Module StrFacts.
Import CStr Http.

Lemma byte_eqb_refl c : Byte.eqb c c = true.
Proof. now apply Byte.byte_dec_lb. Qed.

Lemma byte_eqb_neq a b : a ≠ b → Byte.eqb a b = false.
Proof.
  intros H. destruct (Byte.eqb a b) eqn:E; [|reflexivity].
  apply Byte.byte_dec_bl in E. contradiction.
Qed.

Lemma c_str_nul_free_app l1 l2 :
  Forall (fun c => c ≠ x00) l1 → c_str (l1 ++ l2) = l1 ++ c_str l2.
Proof.
  induction 1 as [|c l1 Hc _ IH]; [reflexivity|].
  cbn [app c_str]. rewrite (byte_eqb_neq c x00 Hc), IH. reflexivity.
Qed.

Lemma c_str_nul_free s : Forall (fun c => c ≠ x00) s → c_str s = s.
Proof.
  intros H. rewrite <- (app_nil_r s) at 1.
  rewrite c_str_nul_free_app by exact H. cbn. apply app_nil_r.
Qed.

Lemma c_str_prefix s : ∃ rest, s = c_str s ++ rest.
Proof.
  induction s as [|c s [rest IH]]; [exists []; reflexivity|].
  cbn [c_str]. destruct (Byte.eqb c x00).
  - exists (c :: s). reflexivity.
  - exists rest. cbn [app]. now rewrite <- IH.
Qed.

Lemma starts_with_app needle post : starts_with needle (needle ++ post) = true.
Proof.
  induction needle as [|c needle IH]; [reflexivity|].
  cbn [app starts_with]. now rewrite byte_eqb_refl, IH.
Qed.

Lemma starts_with_inv needle : ∀ hay,
  starts_with needle hay = true → ∃ post, hay = needle ++ post.
Proof.
  induction needle as [|c needle IH]; intros hay H.
  - exists hay. reflexivity.
  - destruct hay as [|h hay]; [discriminate|]. cbn [starts_with] in H.
    apply andb_true_iff in H as [E H]. apply Byte.byte_dec_bl in E. subst h.
    destruct (IH hay H) as [post ->]. exists post. reflexivity.
Qed.

(** [strstr] finds an occurrence whenever there is one... *)
Lemma strstr_complete pre needle post :
  needle ≠ [] → strstr (pre ++ needle ++ post) needle ≠ None.
Proof.
  intros Hn. induction pre as [|c pre IH].
  - cbn [app]. destruct needle as [|n needle]; [contradiction|].
    cbn [app strstr]. change (n :: needle ++ post) with ((n :: needle) ++ post).
    now rewrite starts_with_app.
  - cbn [app strstr]. destruct (starts_with needle (c :: pre ++ needle ++ post));
      [discriminate | exact IH].
Qed.

(** ... and what it returns is an occurrence. *)
Lemma strstr_sound hay needle found :
  strstr hay needle = Some found →
  ∃ pre post, hay = pre ++ found ∧ found = needle ++ post.
Proof.
  revert found. induction hay as [|c hay IH]; intros found H.
  - cbn [strstr] in H. destruct (starts_with needle []) eqn:S; [|discriminate].
    injection H as <-. destruct (starts_with_inv _ _ S) as [post E].
    exists [], post. auto.
  - cbn [strstr] in H. destruct (starts_with needle (c :: hay)) eqn:S.
    + injection H as <-. destruct (starts_with_inv _ _ S) as [post E].
      exists [], post. auto.
    + destruct (IH _ H) as (pre & post & -> & ->).
      exists (c :: pre), post. auto.
Qed.

(** The first occurrence: when [needle] does not start at any position
    inside [pre], the search in [pre ++ rest] continues in [rest]. *)
Lemma strstr_skip needle rest : ∀ pre,
  (∀ k, (k < length pre)%nat → starts_with needle (drop k (pre ++ rest)) = false) →
  strstr (pre ++ rest) needle = strstr rest needle.
Proof.
  induction pre as [|c pre IH]; intros H; [reflexivity|].
  cbn [app strstr].
  pose proof (H 0%nat ltac:(cbn; lia)) as H0. cbn [drop app] in H0. rewrite H0.
  apply IH. intros k Hk. apply (H (S k)). cbn. lia.
Qed.

Lemma strstr_here needle post :
  needle ≠ [] → strstr (needle ++ post) needle = Some (needle ++ post).
Proof.
  intros Hn. destruct needle as [|n needle]; [contradiction|].
  cbn [app strstr]. change (n :: needle ++ post) with ((n :: needle) ++ post).
  now rewrite starts_with_app.
Qed.

Lemma starts_with_nth needle : ∀ hay (i : nat),
  starts_with needle hay = true → (i < length needle)%nat →
  nth i hay x00 = nth i needle x00.
Proof.
  induction needle as [|c needle IH]; intros hay i H Hi; [cbn in Hi; lia|].
  destruct hay as [|h hay]; [discriminate|]. cbn [starts_with] in H.
  apply andb_true_iff in H as [E H]. apply Byte.byte_dec_bl in E. subst h.
  destruct i as [|i]; [reflexivity|]. cbn [nth]. apply IH; [exact H | cbn in Hi; lia].
Qed.

Lemma strchr_first c rest : ∀ s,
  Forall (fun x => x ≠ c) s → strchr (s ++ c :: rest) c = Some (length s).
Proof.
  induction 1 as [|x s Hx _ IH].
  - cbn. now rewrite byte_eqb_refl.
  - cbn [app strchr length]. rewrite (byte_eqb_neq x c Hx), IH. reflexivity.
Qed.

Lemma plus_to_space_length s : length (plus_to_space s) = length s.
Proof. apply length_map. Qed.

Lemma plus_to_space_nul_free s :
  Forall (fun c => c ≠ x00) s → Forall (fun c => c ≠ x00) (plus_to_space s).
Proof.
  induction 1 as [|c s Hc _ IH]; [constructor|].
  cbn [plus_to_space map]. constructor; [|exact IH].
  destruct (Byte.eqb c x2b); [discriminate | exact Hc].
Qed.

End StrFacts.

(** ** Provisioning endpoint: what gets stored *)

Module ProvisioningFacts.
Import Esp CStr Nvs Creds Reset Http HttpView StrFacts StoreFacts.

Lemma recv_whole body n :
  (length body <= 127)%nat → (length body <= n)%nat →
  httpd_req_recv {| body := body; sock := SockDeliver n |} 127
  = (Z.of_nat (length body), body).
Proof.
  intros H1 H2. unfold httpd_req_recv. cbn [sock Http.body].
  rewrite take_ge by lia. reflexivity.
Qed.

Lemma lit_ssid_nonempty : lit "ssid=" ≠ [].
Proof. discriminate. Qed.

Lemma lit_password_nonempty : lit "password=" ≠ [].
Proof. discriminate. Qed.

Lemma parse_ssid_field s rest :
  Forall (fun c => c ≠ x26) s →
  parse_ssid (lit "ssid=" ++ s ++ x26 :: rest)
  = if (32 <? length s)%nat then None else Some s.
Proof.
  intros Hs. unfold parse_ssid.
  rewrite strstr_here by exact lit_ssid_nonempty.
  rewrite drop_app_length' by reflexivity.
  rewrite strchr_first by exact Hs.
  destruct (32 <? length s)%nat; [reflexivity|].
  now rewrite take_app_length.
Qed.

(** In a form body whose name has no equals sign, the first
    [password=] is the one that follows the ampersand. *)
Lemma parse_password_field s p :
  Forall (fun c => c ≠ x3d) s → (length p <= 64)%nat →
  parse_password (form_body s p) = p.
Proof.
  intros Hs Hp. unfold parse_password, form_body.
  change (lit "&password=") with ([x26] ++ lit "password=").
  replace (lit "ssid=" ++ s ++ ([x26] ++ lit "password=") ++ p)
    with ((lit "ssid=" ++ s ++ [x26]) ++ lit "password=" ++ p)
    by (now rewrite <- !app_assoc).
  rewrite strstr_skip.
  - rewrite strstr_here by exact lit_password_nonempty.
    rewrite drop_app_length' by reflexivity. now apply take_ge.
  - intros k Hk.
    destruct (starts_with (lit "password=") _) eqn:S; [exfalso|reflexivity].
    pose proof (starts_with_nth _ _ 8%nat S ltac:(cbn; lia)) as N.
    rewrite nth_skipn in N. change (nth 8 (lit "password=") x00) with x3d in N.
    assert (Lpre : length (lit "ssid=" ++ s ++ [x26]) = (6 + length s)%nat)
      by (rewrite !length_app; change (length (lit "ssid=")) with 5%nat;
          cbn [length]; lia).
    rewrite Lpre in Hk. clear Lpre.
    (* position k + 8 lies in the name, the ampersand or the word password *)
    assert (F : Forall (fun c => c ≠ x3d) (s ++ [x26] ++ lit "password")).
    { apply Forall_app. split; [exact Hs|]. repeat constructor; discriminate. }
    replace ((lit "ssid=" ++ s ++ [x26]) ++ lit "password=" ++ p)
      with (lit "ssid=" ++ (s ++ [x26] ++ lit "password") ++ (x3d :: p)) in N
      by (rewrite <- !app_assoc; reflexivity).
    replace (k + 8)%nat with (length (lit "ssid=") + (k + 3))%nat in N
      by (change (length (lit "ssid=")) with 5%nat; lia).
    rewrite app_nth2_plus in N.
    rewrite app_nth1 in N
      by (rewrite !length_app; change (length (lit "password")) with 8%nat;
          cbn [length]; lia).
    apply (proj1 (Forall_nth _ x00 _) F (k + 3)%nat); [|exact N].
    rewrite !length_app. change (length (lit "password")) with 8%nat.
    cbn [length]. lia.
Qed.

Lemma form_body_nul_free s p :
  Forall (fun c => c ≠ x00) s → Forall (fun c => c ≠ x00) p →
  Forall (fun c => c ≠ x00) (form_body s p).
Proof.
  intros Hs Hp. unfold form_body.
  repeat (apply Forall_app; split); auto; repeat constructor; discriminate.
Qed.

Lemma length_form_body s p :
  length (form_body s p) = (15 + length s + length p)%nat.
Proof.
  unfold form_body. rewrite !length_app.
  change (length (lit "ssid=")) with 5%nat.
  change (length (lit "&password=")) with 10%nat. lia.
Qed.

(** X14.  A well-formed form body is stored as posted.  For a name of 1
    to 32 bytes without NUL, ampersand or equals sign and a secret of at
    most 64 bytes without NUL, delivered in one piece to a board with a
    healthy flash, the handler answers status ok, stores the name and the
    secret with every plus sign turned into a space, and raises the
    config-saved bit. *)
Theorem set_wifi_stores_form_fields (s p : list byte) (n : nat) (st : board) :
  Forall (fun c => c ≠ x00 ∧ c ≠ x26 ∧ c ≠ x3d) s →
  Forall (fun c => c ≠ x00) p →
  (1 <= length s <= 32)%nat → (length p <= 64)%nat →
  (length (form_body s p) <= n)%nat →
  healthy (nvs st) →
  ∃ st',
    http_server_set_wifi_config_handler
      {| body := form_body s p; sock := SockDeliver n |} st
    = Returned ESP_OK
        [HttpdRespSetType "application/json";
         HttpdRespSetHdr "Access-Control-Allow-Origin" "*";
         HttpdRespSendstr StatusOk] st'
    ∧ stored BOARD_WIFI_NVS_NAMESPACE BOARD_WIFI_SSID_KEY (nvs st')
      = Some (plus_to_space s)
    ∧ stored BOARD_WIFI_NVS_NAMESPACE BOARD_WIFI_PASSWORD_KEY (nvs st')
      = Some (plus_to_space p)
    ∧ bit_set (board_event_group st') WIFI_CONFIG_SAVED_BIT = true.
Proof.
  intros Hs Hp Ls Lp Hn Hh.
  assert (Hs0 : Forall (fun c => c ≠ x00) s) by (eapply Forall_impl; [exact Hs | tauto]).
  assert (Hs1 : Forall (fun c => c ≠ x26) s) by (eapply Forall_impl; [exact Hs | tauto]).
  assert (Hs2 : Forall (fun c => c ≠ x3d) s) by (eapply Forall_impl; [exact Hs | tauto]).
  pose proof (length_form_body s p) as Lb.
  unfold http_server_set_wifi_config_handler.
  rewrite recv_whole by lia.
  replace (Z.of_nat (length (form_body s p)) <=? 0) with false
    by (symmetry; apply Z.leb_gt; lia).
  rewrite (c_str_nul_free _ (form_body_nul_free s p Hs0 Hp)).
  rewrite parse_password_field by assumption.
  change (form_body s p) with (lit "ssid=" ++ s ++ x26 :: (lit "password=" ++ p)).
  rewrite parse_ssid_field by exact Hs1.
  replace (32 <? length s)%nat with false by (symmetry; apply Nat.ltb_ge; lia).
  pose proof (c_str_nul_free _ (plus_to_space_nul_free s Hs0)) as Cs.
  pose proof (c_str_nul_free _ (plus_to_space_nul_free p Hp)) as Cp.
  destruct (save_on_healthy_flash (plus_to_space s) (plus_to_space p) st Hh) as [Ok _].
  { unfold strlen. rewrite Cs, plus_to_space_length. lia. }
  { unfold strlen. rewrite Cp, plus_to_space_length. lia. }
  destruct (board_wifi_save_config (Some (plus_to_space s))
              (Some (plus_to_space p)) st) as [ret st'] eqn:Sv.
  cbn [fst] in Ok. subst ret.
  destruct (save_inv _ _ _ _ _ Sv) as (Inv & _).
  destruct (Inv eq_refl) as (_ & _ & Ss & Sp & G).
  exists st'. split; [reflexivity|].
  rewrite Ss, Sp, Cs, Cp. repeat split.
  rewrite G. unfold bit_set, xEventGroupSetBits.
  rewrite Z.land_lor_distr_l. apply negb_true_iff, Z.eqb_neq. intros Z0.
  apply Z.lor_eq_0_iff in Z0 as [_ Z0]. vm_compute in Z0. discriminate.
Qed.

Lemma set_wifi_stores_form_fields_witness :
  ∃ st',
    http_server_set_wifi_config_handler
      {| body := form_body (lit "My+Net") (lit "secret1"); sock := SockDeliver 200 |}
      fresh_board
    = Returned ESP_OK
        [HttpdRespSetType "application/json";
         HttpdRespSetHdr "Access-Control-Allow-Origin" "*";
         HttpdRespSendstr StatusOk] st'
    ∧ stored BOARD_WIFI_NVS_NAMESPACE BOARD_WIFI_SSID_KEY (nvs st')
      = Some (lit "My Net").
Proof.
  destruct (set_wifi_stores_form_fields (lit "My+Net") (lit "secret1") 200 fresh_board)
    as (st' & H & Ss & _).
  - repeat constructor; discriminate.
  - repeat constructor; discriminate.
  - cbn. lia.
  - cbn. lia.
  - cbn. lia.
  - reflexivity.
  - exists st'. split; [exact H | exact Ss].
Defined.

(** X15.  A name field of more than 32 bytes that is followed by an
    ampersand runs past the 33-byte array [ssid]: for every such body whose
    first [6 + length s] bytes are received, the copy and the terminating
    write behind it leave the array. *)
Theorem set_wifi_long_ssid_overruns (s rest : list byte) (n : nat) (st : board) :
  Forall (fun c => c ≠ x00 ∧ c ≠ x26) s →
  (32 < length s <= 121)%nat →
  (6 + length s <= n)%nat →
  http_server_set_wifi_config_handler
    {| body := lit "ssid=" ++ s ++ x26 :: rest; sock := SockDeliver n |} st
  = StackOverrun.
Proof.
  intros Hs Ls Hn.
  assert (Hs0 : Forall (fun c => c ≠ x00) s) by (eapply Forall_impl; [exact Hs | tauto]).
  assert (Hs1 : Forall (fun c => c ≠ x26) s) by (eapply Forall_impl; [exact Hs | tauto]).
  unfold http_server_set_wifi_config_handler, httpd_req_recv. cbn [sock body].
  set (m := Nat.min 127 n).
  assert (E : take m (lit "ssid=" ++ s ++ x26 :: rest)
              = (lit "ssid=" ++ s ++ [x26]) ++ take (m - (6 + length s)) rest).
  { replace (lit "ssid=" ++ s ++ x26 :: rest)
      with ((lit "ssid=" ++ s ++ [x26]) ++ rest) by (now rewrite <- !app_assoc).
    rewrite take_app_ge.
    - f_equal. f_equal. rewrite !length_app.
      change (length (lit "ssid=")) with 5%nat. cbn [length]. lia.
    - rewrite !length_app. change (length (lit "ssid=")) with 5%nat.
      cbn [length]. subst m. lia. }
  rewrite E.
  replace (Z.of_nat (length ((lit "ssid=" ++ s ++ [x26]) ++ take (m - (6 + length s)) rest)) <=? 0)
    with false
    by (symmetry; apply Z.leb_gt; rewrite !length_app;
        change (length (lit "ssid=")) with 5%nat; cbn [length]; lia).
  rewrite c_str_nul_free_app.
  2:{ repeat (apply Forall_app; split); auto; repeat constructor; discriminate. }
  rewrite <- !app_assoc. cbn [app].
  change (x73 :: x73 :: x69 :: x64 :: x3d :: s ++ x26 :: c_str (take (m - (6 + length s)) rest))
    with (lit "ssid=" ++ s ++ x26 :: c_str (take (m - (6 + length s)) rest)).
  rewrite parse_ssid_field by exact Hs1.
  replace (32 <? length s)%nat with true by (symmetry; apply Nat.ltb_lt; lia).
  reflexivity.
Qed.

Lemma set_wifi_long_ssid_overruns_witness :
  http_server_set_wifi_config_handler
    {| body := lit "ssid=" ++ repeat x61 33 ++ x26 :: lit "password=secret1";
       sock := SockDeliver 127 |} fresh_board
  = StackOverrun.
Proof.
  apply (set_wifi_long_ssid_overruns (repeat x61 33) (lit "password=secret1") 127 fresh_board).
  - repeat constructor; discriminate.
  - cbn. lia.
  - cbn. lia.
Defined.

(** X16.  A body without a name field is refused and nothing is stored:
    when [ssid=] occurs nowhere in a body of which at least one byte is
    received, the handler answers status error with
    [ESP_ERR_INVALID_ARG] and leaves the board as it was. *)
Theorem set_wifi_without_ssid_is_refused (b : list byte) (n : nat) (st : board) :
  ¬ occurs (lit "ssid=") b →
  b ≠ [] → (0 < n)%nat →
  http_server_set_wifi_config_handler {| body := b; sock := SockDeliver n |} st
  = Returned ESP_OK
      [HttpdRespSetType "application/json";
       HttpdRespSetHdr "Access-Control-Allow-Origin" "*";
       HttpdRespSendstr (StatusError ESP_ERR_INVALID_ARG)] st.
Proof.
  intros Hno Hb Hn.
  unfold http_server_set_wifi_config_handler, httpd_req_recv. cbn [sock body].
  set (m := Nat.min 127 n).
  replace (Z.of_nat (length (take m b)) <=? 0) with false.
  2:{ symmetry. apply Z.leb_gt. rewrite length_take.
      destruct b; [contradiction|]. cbn [length]. subst m. lia. }
  assert (S : strstr (c_str (take m b)) (lit "ssid=") = None).
  { destruct (strstr (c_str (take m b)) (lit "ssid=")) as [found|] eqn:F; [|reflexivity].
    exfalso. apply Hno.
    destruct (strstr_sound _ _ _ F) as (pre & post & E1 & E2).
    destruct (c_str_prefix (take m b)) as [r1 E3].
    exists pre, (post ++ r1 ++ drop m b).
    rewrite <- (take_drop m b) at 1. rewrite E3, E1, E2.
    now rewrite <- !app_assoc. }
  unfold parse_ssid. rewrite S.
  cbn [plus_to_space map]. unfold board_wifi_save_config.
  cbn [strlen c_str length Nat.eqb orb]. reflexivity.
Qed.

Lemma set_wifi_without_ssid_is_refused_witness :
  http_server_set_wifi_config_handler
    {| body := lit "password=secret1"; sock := SockDeliver 127 |} fresh_board
  = Returned ESP_OK
      [HttpdRespSetType "application/json";
       HttpdRespSetHdr "Access-Control-Allow-Origin" "*";
       HttpdRespSendstr (StatusError ESP_ERR_INVALID_ARG)] fresh_board.
Proof.
  apply (set_wifi_without_ssid_is_refused (lit "password=secret1") 127 fresh_board).
  - intros (pre & post & E).
    assert (M : In x69 (lit "password=secret1")).
    { rewrite E. apply in_or_app. right. apply in_or_app. left. cbn. tauto. }
    cbn in M. repeat (destruct M as [M|M]; [discriminate|]). exact M.
  - discriminate.
  - lia.
Defined.

End ProvisioningFacts.

(** ** Provisioning endpoint: the 127-byte read *)

Module BodyLimitFacts.
Import Esp CStr Nvs Creds Reset Http HttpView HttpFacts StrFacts StoreFacts
       ProvisioningFacts.

(** The first [password=] of a body that starts with the name field:
    neither the name nor what stands between its ampersand and the word
    holds an equals sign, so no earlier occurrence exists. *)
Lemma parse_password_after s pad p :
  Forall (fun c => c ≠ x3d) s → Forall (fun c => c ≠ x3d) pad →
  parse_password (lit "ssid=" ++ s ++ x26 :: pad ++ lit "password=" ++ p)
  = take 64 p.
Proof.
  intros Hs Hpad. unfold parse_password.
  replace (lit "ssid=" ++ s ++ x26 :: pad ++ lit "password=" ++ p)
    with ((lit "ssid=" ++ s ++ x26 :: pad) ++ lit "password=" ++ p)
    by (rewrite <- !app_assoc; reflexivity).
  rewrite strstr_skip.
  - rewrite strstr_here by exact lit_password_nonempty.
    now rewrite drop_app_length' by reflexivity.
  - intros k Hk.
    destruct (starts_with (lit "password=") _) eqn:S; [exfalso|reflexivity].
    pose proof (starts_with_nth _ _ 8%nat S ltac:(cbn; lia)) as N.
    rewrite nth_skipn in N. change (nth 8 (lit "password=") x00) with x3d in N.
    assert (Lpre : length (lit "ssid=" ++ s ++ x26 :: pad)
                   = (6 + length s + length pad)%nat)
      by (rewrite !length_app; change (length (lit "ssid=")) with 5%nat;
          cbn [length]; lia).
    rewrite Lpre in Hk. clear Lpre.
    assert (F : Forall (fun c => c ≠ x3d) (s ++ x26 :: pad ++ lit "password")).
    { apply Forall_app. split; [exact Hs|]. constructor; [discriminate|].
      apply Forall_app. split; [exact Hpad|]. repeat constructor; discriminate. }
    replace ((lit "ssid=" ++ s ++ x26 :: pad) ++ lit "password=" ++ p)
      with (lit "ssid=" ++ (s ++ x26 :: pad ++ lit "password") ++ (x3d :: p)) in N.
    2:{ rewrite <- !app_assoc. cbn [app]. rewrite <- !app_assoc. reflexivity. }
    replace (k + 8)%nat with (length (lit "ssid=") + (k + 3))%nat in N
      by (change (length (lit "ssid=")) with 5%nat; lia).
    rewrite app_nth2_plus in N.
    assert (Lmid : length (s ++ x26 :: pad ++ lit "password")
                   = (length s + length pad + 9)%nat)
      by (rewrite length_app; cbn [length]; rewrite length_app;
          change (length (lit "password")) with 8%nat; lia).
    rewrite app_nth1 in N by lia.
    apply (proj1 (Forall_nth _ x00 _) F (k + 3)%nat); [lia | exact N].
Qed.

(** Saving two NUL-free strings of valid length on a healthy flash. *)
Lemma save_valid_fields s p st :
  Forall (fun c => c ≠ x00) s → Forall (fun c => c ≠ x00) p →
  (1 <= length s <= 32)%nat → (length p <= 64)%nat →
  healthy (nvs st) →
  ∃ st',
    board_wifi_save_config (Some (plus_to_space s)) (Some (plus_to_space p)) st
    = (ESP_OK, st')
    ∧ stored BOARD_WIFI_NVS_NAMESPACE BOARD_WIFI_SSID_KEY (nvs st')
      = Some (plus_to_space s)
    ∧ stored BOARD_WIFI_NVS_NAMESPACE BOARD_WIFI_PASSWORD_KEY (nvs st')
      = Some (plus_to_space p)
    ∧ bit_set (board_event_group st') WIFI_CONFIG_SAVED_BIT = true.
Proof.
  intros Hs Hp Ls Lp Hh.
  pose proof (c_str_nul_free _ (plus_to_space_nul_free s Hs)) as Cs.
  pose proof (c_str_nul_free _ (plus_to_space_nul_free p Hp)) as Cp.
  destruct (save_on_healthy_flash (plus_to_space s) (plus_to_space p) st Hh) as [Ok _].
  { unfold strlen. rewrite Cs, plus_to_space_length. lia. }
  { unfold strlen. rewrite Cp, plus_to_space_length. lia. }
  destruct (board_wifi_save_config (Some (plus_to_space s))
              (Some (plus_to_space p)) st) as [ret st'] eqn:Sv.
  cbn [fst] in Ok. subst ret.
  destruct (save_inv _ _ _ _ _ Sv) as (Inv & _).
  destruct (Inv eq_refl) as (_ & _ & Ss & Sp & G).
  exists st'. split; [reflexivity|].
  rewrite Ss, Sp, Cs, Cp. repeat split.
  rewrite G. unfold bit_set, xEventGroupSetBits.
  rewrite Z.land_lor_distr_l. apply negb_true_iff, Z.eqb_neq. intros Z0.
  apply Z.lor_eq_0_iff in Z0 as [_ Z0]. vm_compute in Z0. discriminate.
Qed.

(** C10.  The handler reads the body with one [httpd_req_recv] of at
    most 127 bytes and works on what that call returned.

    - A request and the request cut to the first 127 bytes of its body
      lead to the same outcome: the same return value, the same HTTP
      response calls and the same board state, stored credentials
      included.
    - A body of any length, once a byte of it is received, is never
      refused at the read: the handler goes on to parse and save and
      returns [ESP_OK] with the JSON answer (or overruns [ssid]).
    - The cut is at the bytes received, 127 at most.  For a body that
      starts with a name field of 1 to 32 bytes and carries its
      [password=] within the [m] bytes received, where [m] is the
      smaller of 127 and what the connection has ready, the handler
      answers status ok and stores the name and the part of the secret
      that lies within those [m] bytes, 64 bytes of it at most; what
      follows in the body is dropped without an error. *)
Theorem set_wifi_depends_on_first_127_bytes :
  (∀ (b : list byte) (sk : sock_read) (st : board),
     http_server_set_wifi_config_handler {| body := b; sock := sk |} st
     = http_server_set_wifi_config_handler {| body := take 127 b; sock := sk |} st)
  ∧ (∀ (b : list byte) (n : nat) (st : board),
       b ≠ [] → (0 < n)%nat →
       http_server_set_wifi_config_handler {| body := b; sock := SockDeliver n |} st
       = StackOverrun
       ∨ ∃ doc st',
           http_server_set_wifi_config_handler {| body := b; sock := SockDeliver n |} st
           = Returned ESP_OK
               [HttpdRespSetType "application/json";
                HttpdRespSetHdr "Access-Control-Allow-Origin" "*";
                HttpdRespSendstr doc] st')
  ∧ (∀ (s pad p : list byte) (n : nat) (st : board),
       let m := Nat.min 127 n in
       let k := (15 + length s + length pad)%nat in
       Forall (fun c => c ≠ x00 ∧ c ≠ x26 ∧ c ≠ x3d) s →
       Forall (fun c => c ≠ x00 ∧ c ≠ x3d) pad →
       Forall (fun c => c ≠ x00) p →
       (1 <= length s <= 32)%nat →
       (k <= m)%nat →
       healthy (nvs st) →
       ∃ st',
         http_server_set_wifi_config_handler
           {| body := lit "ssid=" ++ s ++ x26 :: pad ++ lit "password=" ++ p;
              sock := SockDeliver n |} st
         = Returned ESP_OK
             [HttpdRespSetType "application/json";
              HttpdRespSetHdr "Access-Control-Allow-Origin" "*";
              HttpdRespSendstr StatusOk] st'
         ∧ stored BOARD_WIFI_NVS_NAMESPACE BOARD_WIFI_SSID_KEY (nvs st')
           = Some (plus_to_space s)
         ∧ stored BOARD_WIFI_NVS_NAMESPACE BOARD_WIFI_PASSWORD_KEY (nvs st')
           = Some (plus_to_space (take (Nat.min 64 (m - k)) p))
         ∧ bit_set (board_event_group st') WIFI_CONFIG_SAVED_BIT = true).
Proof.
  split; [|split].
  - intros b sk st. unfold http_server_set_wifi_config_handler.
    rewrite httpd_req_recv_prefix. reflexivity.
  - intros b n st Hb Hn. unfold http_server_set_wifi_config_handler, httpd_req_recv.
    cbn [sock body].
    assert (L : (0 < length (take (Nat.min 127 n) b))%nat).
    { rewrite length_take. destruct b; [contradiction | cbn [length]; lia]. }
    replace (Z.of_nat (length (take (Nat.min 127 n) b)) <=? 0) with false
      by (symmetry; apply Z.leb_gt; lia).
    destruct (parse_ssid _) as [ssid|]; [right | left; reflexivity].
    destruct (board_wifi_save_config _ _ st) as [save_ret st'].
    eexists _, st'. reflexivity.
  - intros s pad p n st m k Hs Hpad Hp Ls Hk Hh.
    assert (Hs0 : Forall (fun c => c ≠ x00) s) by (eapply Forall_impl; [exact Hs | tauto]).
    assert (Hs1 : Forall (fun c => c ≠ x26) s) by (eapply Forall_impl; [exact Hs | tauto]).
    assert (Hs2 : Forall (fun c => c ≠ x3d) s) by (eapply Forall_impl; [exact Hs | tauto]).
    assert (Hpad0 : Forall (fun c => c ≠ x00) pad)
      by (eapply Forall_impl; [exact Hpad | tauto]).
    assert (Hpad2 : Forall (fun c => c ≠ x3d) pad)
      by (eapply Forall_impl; [exact Hpad | tauto]).
    set (pre := lit "ssid=" ++ s ++ x26 :: pad ++ lit "password=").
    assert (Lpre : length pre = k).
    { subst pre k. rewrite !length_app. cbn [length]. rewrite !length_app.
      change (length (lit "ssid=")) with 5%nat.
      change (length (lit "password=")) with 9%nat. lia. }
    assert (Hrecv : take m (lit "ssid=" ++ s ++ x26 :: pad ++ lit "password=" ++ p)
                    = lit "ssid=" ++ s ++ x26 :: pad ++ lit "password="
                      ++ take (m - k) p).
    { replace (lit "ssid=" ++ s ++ x26 :: pad ++ lit "password=" ++ p)
        with (pre ++ p)
        by (subst pre; rewrite <- !app_assoc; cbn [app];
            rewrite <- !app_assoc; reflexivity).
      rewrite take_app, (take_ge pre) by lia. rewrite Lpre.
      subst pre. rewrite <- !app_assoc. cbn [app]. rewrite <- !app_assoc.
      reflexivity. }
    assert (Hp' : Forall (fun c => c ≠ x00) (take (m - k) p)) by now apply Forall_take.
    assert (Hnul : Forall (fun c => c ≠ x00)
                     (lit "ssid=" ++ s ++ x26 :: pad ++ lit "password="
                      ++ take (m - k) p)).
    { apply Forall_app. split; [repeat constructor; discriminate|].
      apply Forall_app. split; [exact Hs0|]. constructor; [discriminate|].
      apply Forall_app. split; [exact Hpad0|].
      apply Forall_app. split; [repeat constructor; discriminate | exact Hp']. }
    unfold http_server_set_wifi_config_handler, httpd_req_recv.
    cbn [sock body]. fold m. rewrite Hrecv.
    replace (Z.of_nat (length (lit "ssid=" ++ s ++ x26 :: pad ++ lit "password="
                               ++ take (m - k) p)) <=? 0) with false.
    2:{ symmetry. apply Z.leb_gt. rewrite length_app.
        change (length (lit "ssid=")) with 5%nat. lia. }
    rewrite (c_str_nul_free _ Hnul).
    rewrite parse_password_after by assumption.
    rewrite parse_ssid_field by exact Hs1.
    replace (32 <? length s)%nat with false by (symmetry; apply Nat.ltb_ge; lia).
    rewrite take_take.
    destruct (save_valid_fields s (take (Nat.min 64 (m - k)) p) st)
      as (st' & Sv & Ss & Sp & G); auto.
    { now apply Forall_take. }
    { rewrite length_take. lia. }
    rewrite Sv. exists st'. cbn [Z.eqb ESP_OK]. auto.
Qed.

(** A 140-byte body: the name, a second field, and a secret of 70 bytes
    of which 57 lie within the first 127 bytes of the body.  The request
    is answered with status ok and those 57 bytes are the secret stored. *)
Lemma set_wifi_depends_on_first_127_bytes_witness :
  let s := lit "My+Net" in
  let pad := lit "note" ++ repeat x61 44 ++ [x26] in
  let p := repeat x62 57 ++ repeat x63 13 in
  length (lit "ssid=" ++ s ++ x26 :: pad ++ lit "password=" ++ p) = 140%nat
  ∧ ∃ st',
      http_server_set_wifi_config_handler
        {| body := lit "ssid=" ++ s ++ x26 :: pad ++ lit "password=" ++ p;
           sock := SockDeliver 140 |} fresh_board
      = Returned ESP_OK
          [HttpdRespSetType "application/json";
           HttpdRespSetHdr "Access-Control-Allow-Origin" "*";
           HttpdRespSendstr StatusOk] st'
      ∧ stored BOARD_WIFI_NVS_NAMESPACE BOARD_WIFI_SSID_KEY (nvs st')
        = Some (lit "My Net")
      ∧ stored BOARD_WIFI_NVS_NAMESPACE BOARD_WIFI_PASSWORD_KEY (nvs st')
        = Some (repeat x62 57).
Proof.
  cbv zeta. split; [reflexivity|].
  destruct (proj2 (proj2 set_wifi_depends_on_first_127_bytes)
              (lit "My+Net") (lit "note" ++ repeat x61 44 ++ [x26])
              (repeat x62 57 ++ repeat x63 13) 140%nat fresh_board)
    as (st' & H & Ss & Sp & _).
  - repeat constructor; discriminate.
  - repeat constructor; discriminate.
  - repeat constructor; discriminate.
  - cbn. lia.
  - vm_compute. lia.
  - reflexivity.
  - exists st'. split; [exact H|]. split; [exact Ss | exact Sp].
Defined.

End BodyLimitFacts.

(** ** Factory reset button *)

Module ButtonFacts.
Import Session Button ButtonView.

Lemma edges_app period es1 es2 b :
  edges period (es1 ++ es2) b = edges period es2 (edges period es1 b).
Proof. apply fold_left_app. Qed.

Lemma service_idle now b : timer_idle b → btn_timer_service now b = b.
Proof.
  unfold btn_timer_service. intros [H|H]; rewrite H; reflexivity.
Qed.

Lemma press_when_idle period now b :
  timer_idle b →
  edge period b (now, 0)
  = {| btn_timer := Some (ActiveUntil (now + period)); reset_tasks := reset_tasks b |}.
Proof.
  intros H. unfold edge. cbn [fst snd]. rewrite service_idle by exact H.
  unfold factory_reset_btn_intr_handler, factory_reset_btn_task. cbn [Z.eqb].
  destruct H as [H|H]; rewrite H; reflexivity.
Qed.

Lemma edge_before_expiry period expiry tasks now level :
  now < expiry →
  edge period {| btn_timer := Some (ActiveUntil expiry); reset_tasks := tasks |} (now, level)
  = {| btn_timer := Some (if level =? 0 then ActiveUntil expiry else Dormant);
       reset_tasks := tasks |}.
Proof.
  intros H. unfold edge, btn_timer_service. cbn [fst snd btn_timer].
  replace (expiry <=? now) with false by (symmetry; apply Z.leb_gt; exact H).
  unfold factory_reset_btn_intr_handler, factory_reset_btn_task.
  destruct (level =? 0); reflexivity.
Qed.

(** X17.  Short presses never start a factory reset.  From a state with
    no timer running, any number of presses that are each released before
    the long-press time has passed create no reset task and leave no timer
    running. *)
Theorem short_presses_never_reset (period : Z) (presses : list (Z * Z)) (b : button) :
  timer_idle b →
  Forall (fun pr => snd pr < fst pr + period) presses →
  reset_tasks (edges period (flat_map press_and_release presses) b) = reset_tasks b
  ∧ timer_idle (edges period (flat_map press_and_release presses) b).
Proof.
  intros Hb H. revert b Hb.
  induction H as [|[tp tr] presses Hp _ IH]; intros b Hb; [auto|].
  cbn [flat_map press_and_release fst snd app] in *.
  change (edges period ((tp, 0) :: (tr, 1) :: flat_map press_and_release presses) b)
    with (edges period (flat_map press_and_release presses)
            (edge period (edge period b (tp, 0)) (tr, 1))).
  rewrite press_when_idle by exact Hb.
  rewrite edge_before_expiry by exact Hp. cbn [Z.eqb].
  destruct (IH {| btn_timer := Some Dormant; reset_tasks := reset_tasks b |}) as [I1 I2];
    [right; reflexivity|].
  split; [rewrite I1; reflexivity | exact I2].
Qed.

Lemma short_presses_never_reset_witness :
  let b := {| btn_timer := None; reset_tasks := 0 |} in
  reset_tasks (edges 3000 (flat_map press_and_release [(0, 500); (10000, 12999)]) b)
  = 0%nat.
Proof.
  cbv zeta.
  apply (short_presses_never_reset 3000 [(0, 500); (10000, 12999)]
           {| btn_timer := None; reset_tasks := 0 |}).
  - left. reflexivity.
  - repeat constructor; cbn; lia.
Defined.

(** X18.  A long press starts exactly one factory reset.  From a state
    with no timer running, a press at tick [t0] that is not released, with
    any further press edges before [t0 + period] (contact bounce), creates
    one reset task when the timer service runs at or after [t0 + period]:
    the bounces do not restart the timer. *)
Theorem long_press_resets_once (period t0 t : Z) (bounces : list Z) (b : button) :
  timer_idle b →
  Forall (fun tb => tb < t0 + period) bounces →
  t0 + period <= t →
  let held := edges period ((t0, 0) :: map (fun tb => (tb, 0)) bounces) b in
  reset_tasks (btn_timer_service t held) = S (reset_tasks b)
  ∧ timer_idle (btn_timer_service t held).
Proof.
  intros Hb Hbs Ht. cbv zeta.
  change (edges period ((t0, 0) :: map (fun tb => (tb, 0)) bounces) b)
    with (edges period (map (fun tb => (tb, 0)) bounces) (edge period b (t0, 0))).
  rewrite press_when_idle by exact Hb.
  assert (G : edges period (map (fun tb => (tb, 0)) bounces)
                {| btn_timer := Some (ActiveUntil (t0 + period));
                   reset_tasks := reset_tasks b |}
              = {| btn_timer := Some (ActiveUntil (t0 + period));
                   reset_tasks := reset_tasks b |}).
  { induction Hbs as [|tb bounces Htb _ IH]; [reflexivity|].
    cbn [map].
    change (edges period ((tb, 0) :: ?l) ?s) with (edges period l (edge period s (tb, 0))).
    rewrite edge_before_expiry by exact Htb. cbn [Z.eqb]. exact IH. }
  rewrite G. unfold btn_timer_service. cbn [btn_timer].
  replace (t0 + period <=? t) with true by (symmetry; apply Z.leb_le; exact Ht).
  split; [reflexivity | right; reflexivity].
Qed.

Lemma long_press_resets_once_witness :
  let b := {| btn_timer := None; reset_tasks := 0 |} in
  reset_tasks (btn_timer_service 3000 (edges 3000 [(0, 0); (5, 0); (9, 0)] b)) = 1%nat.
Proof.
  cbv zeta.
  apply (long_press_resets_once 3000 0 3000 [5; 9] {| btn_timer := None; reset_tasks := 0 |}).
  - left. reflexivity.
  - repeat constructor; lia.
  - lia.
Defined.

End ButtonFacts.

(** ** Inbound commands *)

Module CmdFacts.
Import Esp CStr Cmd StrFacts.

Lemma bytes_eqb_refl a : bytes_eqb a a = true.
Proof.
  induction a as [|c a IH]; [reflexivity|].
  cbn [bytes_eqb]. now rewrite byte_eqb_refl, IH.
Qed.

Lemma bytes_eqb_eq a : ∀ b, bytes_eqb a b = true → a = b.
Proof.
  induction a as [|x a IH]; intros [|y b] H; try discriminate; [reflexivity|].
  cbn [bytes_eqb] in H. apply andb_true_iff in H as [E H].
  apply Byte.byte_dec_bl in E. subst y. f_equal. now apply IH.
Qed.

Lemma failed_true_iff' ret : failed ret = true ↔ ret ≠ ESP_OK.
Proof. unfold failed. rewrite negb_true_iff. apply Z.eqb_neq. Qed.

Lemma failed_false_iff' ret : failed ret = false ↔ ret = ESP_OK.
Proof. unfold failed. rewrite negb_false_iff. apply Z.eqb_eq. Qed.

Lemma strcmp_eq_true v (name : string) :
  c_str v = lit name → c_str (lit name) = lit name → strcmp_eq v (lit name) = true.
Proof.
  intros E1 E2. unfold strcmp_eq. rewrite E1, E2. apply bytes_eqb_refl.
Qed.

Lemma strcmp_eq_false v (name : string) :
  c_str v ≠ lit name → c_str (lit name) = lit name → strcmp_eq v (lit name) = false.
Proof.
  intros N E2. unfold strcmp_eq. rewrite E2.
  destruct (bytes_eqb (c_str v) (lit name)) eqn:B; [|reflexivity].
  apply bytes_eqb_eq in B. contradiction.
Qed.

(** X19.  The recording time sent on is always between 1 and 60 seconds.
    For every data frame whose event is [start_recording], the handler
    calls [start_audio_recording] once and confirms with the same number,
    which is the [duration] of the [data] object limited to 1..60 when
    that is a number, and 5 otherwise. *)
Theorem start_recording_duration_is_clamped (data_len : Z) (root : cJSON)
    (v : list byte) (play : Z → Z) :
  0 < data_len →
  cJSON_GetObjectItem (Some root) (lit "event") = Some (cJSON_String v) →
  c_str v = lit "start_recording" →
  ∃ d,
    websocket_event_data data_len (Some root) play
    = [StartAudioRecording d; SendText (RecordingStarted d)]
    ∧ 1 <= d <= 60
    ∧ d = match cJSON_GetObjectItem (Some root) (lit "data") with
          | Some (cJSON_Object members) =>
              match find_member members (lit "duration") with
              | Some (cJSON_Number n) => Z.max 1 (Z.min 60 n)
              | _ => 5
              end
          | _ => 5
          end.
Proof.
  intros Hlen Hev Hv. unfold websocket_event_data.
  replace (0 <? data_len) with true by (symmetry; apply Z.ltb_lt; exact Hlen).
  cbn [negb]. rewrite Hev.
  rewrite (strcmp_eq_true v "start_recording" Hv eq_refl).
  eexists. split; [reflexivity|].
  destruct (cJSON_GetObjectItem (Some root) (lit "data")) as [[| | | | | |members]|];
    try (split; [lia | reflexivity]).
  cbn [cJSON_GetObjectItem].
  destruct (find_member members (lit "duration")) as [[| | |n| | |]|];
    try (split; [lia | reflexivity]).
  destruct (n <? 1) eqn:E1.
  - apply Z.ltb_lt in E1. change (60 <? 1) with false. cbv iota. split; lia.
  - apply Z.ltb_ge in E1. destruct (60 <? n) eqn:E2.
    + apply Z.ltb_lt in E2. split; lia.
    + apply Z.ltb_ge in E2. split; lia.
Qed.

Lemma start_recording_duration_is_clamped_witness :
  websocket_event_data 52
    (Some (cJSON_Object
             [(lit "event", cJSON_String (lit "start_recording"));
              (lit "data", cJSON_Object [(lit "duration", cJSON_Number 120)])]))
    (fun _ => ESP_OK)
  = [StartAudioRecording 60; SendText (RecordingStarted 60)].
Proof.
  destruct (start_recording_duration_is_clamped 52
              (cJSON_Object
                 [(lit "event", cJSON_String (lit "start_recording"));
                  (lit "data", cJSON_Object [(lit "duration", cJSON_Number 120)])])
              (lit "start_recording") (fun _ => ESP_OK))
    as (d & H & _ & E); [lia | reflexivity | reflexivity |].
  rewrite H, E. reflexivity.
Defined.

(** X20.  Frames that carry no known command do nothing.  When the parsed
    text has no string member named [event], or that string is none of
    [start_recording], [restart] and [play_pcm], the handler makes no call
    and sends nothing. *)
Theorem unknown_event_is_ignored (data_len : Z) (root : option cJSON) (play : Z → Z) :
  (∀ v, cJSON_GetObjectItem root (lit "event") = Some (cJSON_String v) →
        c_str v ≠ lit "start_recording" ∧ c_str v ≠ lit "restart"
        ∧ c_str v ≠ lit "play_pcm") →
  websocket_event_data data_len root play = [].
Proof.
  intros H. unfold websocket_event_data.
  destruct (negb (0 <? data_len)); [reflexivity|].
  destruct root as [root|]; [|reflexivity].
  destruct (cJSON_GetObjectItem (Some root) (lit "event")) as [[| | | |v| |]|];
    try reflexivity.
  destruct (H v eq_refl) as (N1 & N2 & N3).
  rewrite (strcmp_eq_false v "start_recording" N1 eq_refl).
  rewrite (strcmp_eq_false v "restart" N2 eq_refl).
  rewrite (strcmp_eq_false v "play_pcm" N3 eq_refl).
  reflexivity.
Qed.

Lemma unknown_event_is_ignored_witness :
  websocket_event_data 16
    (Some (cJSON_Object [(lit "event", cJSON_String (lit "ping"))])) (fun _ => ESP_OK)
  = [].
Proof.
  apply unknown_event_is_ignored.
  intros v [= <-]. repeat split; discriminate.
Defined.

(** X21.  [play_pcm_by_id] plays only what it should.  The audio driver
    is asked to play exactly when the id is 1 to 4 and a channel handle
    exists or its initialisation succeeds; in that case the function
    returns what [board_audio_play] returned and leaves the system state
    at [SYSTEM_STATE_INIT]; otherwise it returns an error and leaves the
    system state as it was. *)
Theorem play_pcm_by_id_plays_only_valid_ids (pcm_id : Z) (hw : audio_hw) (st : player) :
  let r := play_pcm_by_id pcm_id hw st in
  let ret := fst (fst r) in
  let st' := snd (fst r) in
  let played := 1 <= pcm_id <= 4
                ∧ (s_tx_handle st = true ∨ fst (playback_init hw) = ESP_OK) in
  (In (BoardAudioPlay pcm_id) (snd r) ↔ played)
  ∧ (played → ret = audio_play hw
              ∧ s_system_state st' = Session.SYSTEM_STATE_INIT
              ∧ s_tx_handle st' = true)
  ∧ (¬ played → ret ≠ ESP_OK ∧ s_system_state st' = s_system_state st).
Proof.
  cbv zeta. unfold play_pcm_by_id.
  destruct ((1 <=? pcm_id) && (pcm_id <=? 4)) eqn:V; cbn [negb].
  - apply andb_true_iff in V as [V1 V2]. apply Z.leb_le in V1, V2.
    destruct (s_tx_handle st) eqn:Hh.
    + cbn [failed ESP_OK Z.eqb negb fst snd s_system_state s_tx_handle app In].
      intuition (try discriminate; try congruence).
    + destruct (failed (fst (playback_init hw))) eqn:F.
      * apply failed_true_iff' in F.
        cbn [fst snd s_system_state s_tx_handle app In].
        intuition (try discriminate; try congruence).
      * apply failed_false_iff' in F. rewrite F.
        cbn [fst snd s_system_state s_tx_handle app In ESP_OK Z.eqb orb].
        intuition (try discriminate; try congruence).
  - cbn [fst snd In].
    assert (N : ¬ (1 <= pcm_id <= 4)).
    { intros [A B]. apply Z.leb_le in A, B. rewrite A, B in V. discriminate. }
    intuition (try discriminate; try congruence).
Qed.

End CmdFacts.

(** ** Captive portal catch-all *)

Module PortalFacts.
Import CStr Http HttpView Portal PortalView StrFacts.

Lemma contains_iff v (needle : string) :
  Forall (fun c => c ≠ x00) v → lit needle ≠ [] →
  contains v needle = true ↔ occurs (lit needle) v.
Proof.
  intros Hv Hn. unfold contains. rewrite (c_str_nul_free v Hv). split.
  - destruct (strstr v (lit needle)) as [found|] eqn:S; [|discriminate].
    intros _. destruct (strstr_sound _ _ _ S) as (pre & post & -> & ->).
    exists pre, post. reflexivity.
  - intros (pre & post & ->).
    pose proof (strstr_complete pre (lit needle) post Hn) as C.
    destruct (strstr _ _); [reflexivity | contradiction].
Qed.

Lemma header_check value limit (needle : string) :
  (∀ v, value = Some v → Forall (fun c => c ≠ x00) v) → lit needle ≠ [] →
  ((0 <? httpd_req_get_hdr_value_len value)%nat
   && (httpd_req_get_hdr_value_len value <? limit)%nat
   && contains (default [] value) needle) = true
  ↔ header_has value limit needle.
Proof.
  intros Hv Hn. unfold header_has. destruct value as [v|]; cbn [httpd_req_get_hdr_value_len default].
  - rewrite !andb_true_iff, !Nat.ltb_lt, (contains_iff v needle (Hv v eq_refl) Hn).
    split.
    + intros [[A B] C]. exists v. auto.
    + intros (v' & [= <-] & [A B] & C). auto.
  - cbn. split; [discriminate | intros (v & E & _); discriminate].
Qed.

Lemma is_xiaomi_iff req :
  nul_free_headers req → is_xiaomi req = true ↔ xiaomi_marks req.
Proof.
  intros [Hu _]. unfold xiaomi_marks.
  rewrite <- !(header_check (user_agent req) 128) by (auto; discriminate).
  unfold is_xiaomi.
  destruct ((0 <? _)%nat && (_ <? 128)%nat); cbn [andb];
    rewrite ?orb_true_iff; intuition discriminate.
Qed.

Lemma is_apple_iff req :
  nul_free_headers req → is_apple req = true ↔ apple_marks req.
Proof.
  intros [Hu Hh]. unfold apple_marks.
  rewrite <- !(header_check (user_agent req) 128) by (auto; discriminate).
  rewrite <- (header_check (host req) 64) by (auto; discriminate).
  unfold is_apple.
  destruct ((0 <? httpd_req_get_hdr_value_len (user_agent req))%nat
            && (_ <? 128)%nat);
    destruct ((0 <? httpd_req_get_hdr_value_len (host req))%nat
              && (_ <? 64)%nat);
    cbn [andb]; rewrite ?orb_true_iff; intuition discriminate.
Qed.

(** X22.  How the catch-all chooses its answer.  Every answer starts
    with the four no-cache headers.  A User-Agent of 1 to 127 bytes that
    contains [MiuiBrowser], [XiaoMi] or [MI ] gets the 302 redirect,
    whatever else the request says; failing that, a User-Agent containing
    [iPhone], [iPad] or [Mac], or a Host of 1 to 63 bytes containing
    [captive.apple.com], gets the meta-refresh page; every other request,
    one with an overlong or missing header included, gets the page with
    the script. *)
Theorem captive_portal_chooses_by_marks (req : portal_req) :
  nul_free_headers req →
  (xiaomi_marks req →
   captive_portal_handler req
   = no_cache_headers
     ++ [RespSetStatus "302 Found";
         RespSetHdr "Location" "http://192.168.4.1/";
         RespSend NoBody])
  ∧ (¬ xiaomi_marks req → apple_marks req →
     captive_portal_handler req
     = no_cache_headers ++ [RespSetType "text/html"; RespSend MetaRefreshPage])
  ∧ (¬ xiaomi_marks req → ¬ apple_marks req →
     captive_portal_handler req
     = no_cache_headers ++ [RespSetType "text/html"; RespSend MetaRefreshScriptPage]).
Proof.
  intros H. pose proof (is_xiaomi_iff req H) as X. pose proof (is_apple_iff req H) as A.
  unfold captive_portal_handler, no_cache_headers.
  destruct (is_xiaomi req); destruct (is_apple req);
    repeat split; intros; try reflexivity;
    intuition (try discriminate; try congruence).
Qed.

Lemma captive_portal_chooses_by_marks_witness :
  let req := {| user_agent := Some (lit "Mozilla/5.0 (Linux; U; Android 13) XiaoMi/MiuiBrowser Mac");
                host := Some (lit "captive.apple.com") |} in
  captive_portal_handler req
  = no_cache_headers
    ++ [RespSetStatus "302 Found";
        RespSetHdr "Location" "http://192.168.4.1/";
        RespSend NoBody].
Proof.
  cbv zeta.
  apply captive_portal_chooses_by_marks.
  - split; intros v [= <-]; repeat constructor; discriminate.
  - right. left.
    exists (lit "Mozilla/5.0 (Linux; U; Android 13) XiaoMi/MiuiBrowser Mac").
    split; [reflexivity|]. split; [cbn; lia|].
    exists (lit "Mozilla/5.0 (Linux; U; Android 13) "), (lit "/MiuiBrowser Mac").
    reflexivity.
Defined.

End PortalFacts.

(** ** Audio playback *)

Module AudioFacts.
Import Esp Audio.

Lemma bytes_taken_app l1 l2 :
  bytes_taken (l1 ++ l2) = (bytes_taken l1 + bytes_taken l2)%nat.
Proof.
  induction l1 as [|c l1 IH]; [reflexivity|].
  cbn [app]. unfold bytes_taken in *. cbn [fold_right]. rewrite IH.
  destruct c; lia.
Qed.

(** The write loop never touches the amplifier. *)
Lemma play_loop_keeps_pa ws : ∀ remaining offset on,
  pa_after on (fst (play_loop ws remaining offset)) = on.
Proof.
  induction ws as [|[ret n] ws IH]; intros remaining offset on;
    destruct remaining as [|r]; try reflexivity.
  cbn [play_loop]. destruct (failed ret); [reflexivity|].
  specialize (IH (S r - Nat.min n (S r))%nat (offset + Nat.min n (S r))%nat on).
  destruct (play_loop ws _ _) as [calls fin]. cbn [fst] in *. exact IH.
Qed.

(** When no write fails and the loop is left, the writes took what was
    remaining. *)
Lemma play_loop_takes_all ws : ∀ remaining offset,
  Forall (fun w => fst w = ESP_OK) ws →
  snd (play_loop ws remaining offset) = true →
  bytes_taken (fst (play_loop ws remaining offset)) = remaining.
Proof.
  induction ws as [|[ret n] ws IH]; intros remaining offset Hok Hfin;
    destruct remaining as [|r]; try reflexivity; cbn [play_loop] in *.
  - discriminate.
  - apply Forall_cons in Hok as [Hret Hok]. cbn [fst] in Hret. subst ret.
    cbn [failed ESP_OK Z.eqb negb] in *.
    specialize (IH (S r - Nat.min n (S r))%nat (offset + Nat.min n (S r))%nat Hok).
    destruct (play_loop ws _ _) as [calls fin]. cbn [fst snd] in *.
    specialize (IH Hfin). unfold bytes_taken in *. cbn [fold_right]. rewrite IH. lia.
Qed.

(** X23.  The amplifier is never left on.  On every path on which
    [board_audio_play] returns, whatever the driver answers, the last
    thing done to the amplifier is to switch it off, or it was not
    switched on at all. *)
Theorem audio_play_leaves_amplifier_off (tx_handle buffer : bool)
    (buffer_size : nat) (env : i2s_env) (ret : Z) (calls : list i2s_call) :
  board_audio_play tx_handle buffer buffer_size env = (Some ret, calls) →
  pa_after false calls = false.
Proof.
  unfold board_audio_play.
  destruct (negb tx_handle || negb buffer || (buffer_size =? 0)%nat).
  { intros [= <- <-]. reflexivity. }
  destruct (failed (fst (preload env))).
  { intros [= <- <-]. reflexivity. }
  destruct (failed (enable env)).
  { intros [= <- <-]. reflexivity. }
  pose proof (play_loop_keeps_pa (writes env)
                (buffer_size - Nat.min (snd (preload env))
                                 (if (1024 <? buffer_size)%nat then 1024%nat else buffer_size))%nat
                (Nat.min (snd (preload env))
                   (if (1024 <? buffer_size)%nat then 1024%nat else buffer_size)) true) as K.
  destruct (play_loop _ _ _) as [loop_calls fin]. cbn [fst] in K.
  destruct fin; [|discriminate].
  intros [= <- <-].
  unfold pa_after in *. cbn [app fold_left]. rewrite fold_left_app, K.
  reflexivity.
Qed.

Lemma audio_play_leaves_amplifier_off_witness :
  let env := {| preload := (ESP_OK, 1024%nat); enable := ESP_OK;
                writes := [(ESP_OK, 500%nat); (ESP_FAIL, 0%nat)] |} in
  ∃ calls, board_audio_play true true 2000 env = (Some ESP_OK, calls)
           ∧ pa_after false calls = false.
Proof.
  cbv zeta. eexists. split; [vm_compute; reflexivity|].
  eapply (audio_play_leaves_amplifier_off true true 2000
            {| preload := (ESP_OK, 1024%nat); enable := ESP_OK;
               writes := [(ESP_OK, 500%nat); (ESP_FAIL, 0%nat)] |} ESP_OK).
  vm_compute. reflexivity.
Defined.

(** X24.  A playback without write errors is complete.  When every
    [i2s_channel_write] succeeds and [board_audio_play] returns [ESP_OK],
    the bytes taken by the preload and by the writes add up to the size of
    the buffer. *)
Theorem audio_play_delivers_whole_buffer (tx_handle buffer : bool)
    (buffer_size : nat) (env : i2s_env) (calls : list i2s_call) :
  Forall (fun w => fst w = ESP_OK) (writes env) →
  board_audio_play tx_handle buffer buffer_size env = (Some ESP_OK, calls) →
  bytes_taken calls = buffer_size.
Proof.
  intros Hok. unfold board_audio_play.
  destruct (negb tx_handle || negb buffer || (buffer_size =? 0)%nat).
  { intros [= E _]. }
  destruct (failed (fst (preload env))) eqn:F1.
  { intros [= E _]. rewrite E in F1. discriminate. }
  destruct (failed (enable env)) eqn:F2.
  { intros [= E _]. rewrite E in F2. discriminate. }
  set (taken := Nat.min (snd (preload env))
                  (if (1024 <? buffer_size)%nat then 1024%nat else buffer_size)).
  assert (Ht : (taken <= buffer_size)%nat).
  { subst taken. destruct (1024 <? buffer_size)%nat eqn:B; [apply Nat.ltb_lt in B|]; lia. }
  pose proof (play_loop_takes_all (writes env) (buffer_size - taken)%nat taken Hok) as T.
  destruct (play_loop _ _ _) as [loop_calls fin]. cbn [fst snd] in T.
  destruct fin; [|discriminate].
  intros [= <-]. specialize (T eq_refl).
  pose proof (bytes_taken_app loop_calls [VTaskDelay500; I2sDisable; PaPower false]) as A.
  unfold bytes_taken in *. cbn [app fold_right] in *. rewrite A, T. lia.
Qed.

Lemma audio_play_delivers_whole_buffer_witness :
  let env := {| preload := (ESP_OK, 1024%nat); enable := ESP_OK;
                writes := [(ESP_OK, 500%nat); (ESP_OK, 0%nat); (ESP_OK, 4000%nat)] |} in
  ∃ calls, board_audio_play true true 2000 env = (Some ESP_OK, calls)
           ∧ bytes_taken calls = 2000%nat.
Proof.
  cbv zeta. eexists. split; [vm_compute; reflexivity|].
  eapply (audio_play_delivers_whole_buffer true true 2000
            {| preload := (ESP_OK, 1024%nat); enable := ESP_OK;
               writes := [(ESP_OK, 500%nat); (ESP_OK, 0%nat); (ESP_OK, 4000%nat)] |}).
  - repeat constructor.
  - vm_compute. reflexivity.
Defined.

(** X25.  A failed write is not reported.  Once the arguments are
    accepted and the preload and the enabling of the channel succeed,
    [board_audio_play] returns [ESP_OK] whenever it returns, whatever the
    writes answered. *)
Theorem audio_play_hides_write_errors (buffer_size : nat) (env : i2s_env)
    (ret : Z) (calls : list i2s_call) :
  buffer_size ≠ 0%nat →
  fst (preload env) = ESP_OK →
  enable env = ESP_OK →
  board_audio_play true true buffer_size env = (Some ret, calls) →
  ret = ESP_OK.
Proof.
  intros Hsz Hp He. unfold board_audio_play. rewrite Hp, He.
  apply Nat.eqb_neq in Hsz. rewrite Hsz.
  cbn [negb orb failed ESP_OK Z.eqb].
  destruct (play_loop _ _ _) as [loop_calls fin].
  destruct fin; [|discriminate].
  intros [= <- _]. reflexivity.
Qed.

Lemma audio_play_hides_write_errors_witness :
  let env := {| preload := (ESP_OK, 1024%nat); enable := ESP_OK;
                writes := [(ESP_FAIL, 0%nat)] |} in
  let calls := [I2sPreload 1024 1024; PaPower true; I2sEnable;
                I2sWrite 1024 976 0; VTaskDelay500; I2sDisable; PaPower false] in
  board_audio_play true true 2000 env = (Some 0, calls)
  ∧ (bytes_taken calls < 2000)%nat
  ∧ 0 = ESP_OK.
Proof.
  cbv zeta. split; [vm_compute; reflexivity|]. split; [vm_compute; lia|].
  eapply (audio_play_hides_write_errors 2000
            {| preload := (ESP_OK, 1024%nat); enable := ESP_OK;
               writes := [(ESP_FAIL, 0%nat)] |} 0);
    [lia | reflexivity | reflexivity | vm_compute; reflexivity].
Defined.

End AudioFacts.
